(** * PostgREST fetch client: a shallow embedding and its properties

    The development follows the TypeScript sources of the client:
    - the error model ([POSTGREST_ERROR_TYPE], [postgrestErrorSchema],
      [PostgrestClientError]);
    - the client class ([PostgrestClient]: [constructor], [setToken],
      [validateData], [fetchWithAuth], [get], [getFirst], [post], [patch],
      [delete]) and [createPostgrestClient], in the revision that resolves
      the URL at request time;
    - the earlier revision of the class kept in [src/index.ts], whose
      constructor parses the base eagerly (module [Legacy]).

    What the JavaScript host provides ([URL], [fetch], [JSON.stringify],
    [String] on numbers) is taken as a parameter: the classes [Host] and
    [Platform].  [Headers] and [URLSearchParams] are modelled as the ordered
    lists of pairs the Fetch and URL standards define them to be, [Headers]
    with the standard's check of names and values and its trimming of
    values.  A string is a sequence of characters with codes below 256. *)

From stdpp Require Import base list strings pretty.
From Stdlib Require Import NArith Ascii.

Set Warnings "-register-all".

Local Open Scope string_scope.
Local Open Scope N_scope.
Local Open Scope list_scope.
Local Open Scope stdpp_scope.

(** ** Error model (error.ts) *)

Definition POSTGREST_ERROR_TYPE : string := "POSTGREST_ERROR".

(** [PostgrestErrorResponse]: the output type of [postgrestErrorSchema];
    [null] is [None]. *)
Record PostgrestErrorResponse := {
  message : string;
  details : option string;
  hint : option string;
  code : string;
}.

(** [PostgrestClientError extends Error]: [error_message] is the [message]
    inherited from [Error], set by [super(errorData.message)]. *)
Record PostgrestClientError := {
  error_type : string;
  error_name : string;
  error_message : string;
  error_status : N;
  error_details : option string;
  error_hint : option string;
  error_code : string;
}.

(** [new PostgrestClientError(status, errorData)]. *)
Definition new_PostgrestClientError (status : N) (errorData : PostgrestErrorResponse)
  : PostgrestClientError :=
  {| error_type := POSTGREST_ERROR_TYPE;
     error_name := "PostgrestClientError";
     error_message := message errorData;
     error_status := status;
     error_details := details errorData;
     error_hint := hint errorData;
     error_code := code errorData |}.

(** What a rejected promise carries: an [Error] made by the client with
    [new Error(msg)], a [PostgrestClientError], or an error raised by the
    host ([TypeError] of [fetch], [SyntaxError] of [response.json()], ...). *)
Inductive Thrown :=
| JsError (msg : string)
| ClientError (e : PostgrestClientError)
| HostError (name msg : string).

Inductive Outcome (A : Type) :=
| Resolved (a : A)
| Rejected (e : Thrown).
Arguments Resolved {A} a.
Arguments Rejected {A} e.

(** ** Host data: URL, URLSearchParams, Headers *)

(** A parsed [URL]: [url_path] is the serialised scheme, authority and path,
    [searchParams] the list of name-value pairs of its query, in order
    (the list a [URLSearchParams] object holds), [url_hash] the fragment. *)
Record URL := {
  url_path : string;
  searchParams : list (string * string);
  url_hash : string;
}.

(** [url.searchParams.append(key, value)]: the pair goes to the end of the
    list. *)
Definition searchParams_append (url : URL) (key value : string) : URL :=
  {| url_path := url_path url;
     searchParams := searchParams url ++ [(key, value)];
     url_hash := url_hash url |}.

(** Header names are case-insensitive; a [Headers] object is read here
    with its names in lower case. *)
Definition ascii_lower (c : Ascii.ascii) : Ascii.ascii :=
  let n := Ascii.N_of_ascii c in
  if (65 <=? n) && (n <=? 90) then Ascii.ascii_of_N (n + 32) else c.

Fixpoint lower (s : string) : string :=
  match s with
  | EmptyString => EmptyString
  | String c r => String (ascii_lower c) (lower r)
  end.

(** HTTP whitespace: tab, line feed, carriage return, space. *)
Definition is_http_whitespace (c : ascii) : bool :=
  let n := N_of_ascii c in
  (n =? 9) || (n =? 10) || (n =? 13) || (n =? 32).

Fixpoint strip_leading (s : string) : string :=
  match s with
  | EmptyString => EmptyString
  | String c r => if is_http_whitespace c then strip_leading r else s
  end.

Fixpoint strip_trailing (s : string) : string :=
  match s with
  | EmptyString => EmptyString
  | String c r =>
      let r' := strip_trailing r in
      if is_http_whitespace c && String.eqb r' "" then EmptyString
      else String c r'
  end.

(** To normalize a header value: the HTTP whitespace before and after it
    is removed. *)
Definition normalize_value (value : string) : string :=
  strip_trailing (strip_leading value).

Fixpoint all_chars (f : ascii -> bool) (s : string) : bool :=
  match s with
  | EmptyString => true
  | String c r => f c && all_chars f r
  end.

(** The characters of a token: letters, digits and
    [! # $ % & ' * + - . ^ _ ` | ~]. *)
Definition is_token_char (c : ascii) : bool :=
  let n := N_of_ascii c in
  ((48 <=? n) && (n <=? 57)) || ((65 <=? n) && (n <=? 90))
  || ((97 <=? n) && (n <=? 122))
  || (n =? 33) || ((35 <=? n) && (n <=? 39)) || (n =? 42) || (n =? 43)
  || (n =? 45) || (n =? 46) || ((94 <=? n) && (n <=? 96)) || (n =? 124)
  || (n =? 126).

(** A header name is a non-empty token. *)
Definition valid_name (name : string) : bool :=
  negb (String.eqb name "") && all_chars is_token_char name.

(** A header value, once normalized, is one without NUL, line feed and
    carriage return (it has no whitespace before or after it any more). *)
Definition valid_value (value : string) : bool :=
  all_chars (fun c => let n := N_of_ascii c in
                      negb ((n =? 0) || (n =? 10) || (n =? 13))) value.

(** A [Headers] object: its header list, names in lower case, values
    normalized.  An operation that adds a header gives [inl (name, value)]
    when the host throws a [TypeError] because the name or the value is not
    valid. *)
Definition Headers := list (string * string).

Definition Headers_append (h : Headers) (name value : string)
  : string * string + Headers :=
  let value' := normalize_value value in
  if valid_name name && valid_value value'
  then inr (h ++ [(lower name, value')])
  else inl (name, value).

(** Appending every entry of [init], in order, to [h]. *)
Fixpoint Headers_fill (h : Headers) (init : list (string * string))
  : string * string + Headers :=
  match init with
  | [] => inr h
  | (name, value) :: rest =>
      match Headers_append h name value with
      | inl e => inl e
      | inr h' => Headers_fill h' rest
      end
  end.

(** [new Headers(init)]. *)
Definition Headers_new (init : list (string * string))
  : string * string + Headers :=
  Headers_fill [] init.

Definition Headers_has (h : Headers) (name : string) : bool :=
  existsb (fun kv => String.eqb (fst kv) (lower name)) h.

(** The first header of the name [n] takes the value and the others of
    that name are removed. *)
Fixpoint Headers_replace (h : Headers) (n value : string) : Headers :=
  match h with
  | [] => []
  | (k, v) :: r =>
      if String.eqb k n
      then (k, value) :: List.filter (fun kv => negb (String.eqb (fst kv) n)) r
      else (k, v) :: Headers_replace r n value
  end.

(** [headers.set(name, value)]: the value is normalized and checked with
    the name; then the header replaces those of that name, or is appended
    when there is none. *)
Definition Headers_set (h : Headers) (name value : string)
  : string * string + Headers :=
  let value' := normalize_value value in
  if valid_name name && valid_value value'
  then inr (if Headers_has h name
            then Headers_replace h (lower name) value'
            else h ++ [(lower name, value')])
  else inl (name, value).

(** Several values of one name are read joined by ", ". *)
Definition combine_values (values : list string) : option string :=
  match values with
  | [] => None
  | v :: vs => Some (fold_left (fun acc w => acc +:+ ", " +:+ w) vs v)
  end.

(** [headers.get(name)] for a name that is a token: the values of that
    name joined by ", ", or [null]. *)
Definition Headers_get (h : Headers) (name : string) : option string :=
  combine_values
    (map snd (List.filter (fun kv => String.eqb (fst kv) (lower name)) h)).

(** [endpoint.replace(/^\//, "")]: one leading slash is dropped. *)
Definition strip_leading_slash (endpoint : string) : string :=
  match endpoint with
  | String "/"%char rest => rest
  | _ => endpoint
  end.

(** ** The host's numbers and passthrough options *)

(** [number] is the host's number type with [String(n)] on it;
    [RequestInit_rest] stands for the [RequestInit] fields the client
    forwards to [fetch] untouched ([signal], [cache], ...). *)
Class Host := {
  number : Type;
  Number_toString : number -> string;
  RequestInit_rest : Type;
}.

Section Model.
Context `{Host}.

(** A parsed JSON value; an object is the list of its properties, whose
    keys are distinct. *)
Inductive JSON :=
| JNull
| JBool (b : bool)
| JNum (n : number)
| JStr (s : string)
| JArr (items : list JSON)
| JObj (props : list (string * JSON)).

(** [input[key]] on a parsed object. *)
Fixpoint JSON_prop (props : list (string * JSON)) (key : string) : option JSON :=
  match props with
  | [] => None
  | (k, v) :: r => if String.eqb k key then Some v else JSON_prop r key
  end.

(** [v.string()] and [v.nullable(v.string())] on a property of the input;
    a missing key fails both. *)
Definition parse_string (p : option JSON) : option string :=
  match p with
  | Some (JStr s) => Some s
  | _ => None
  end.

Definition parse_nullable_string (p : option JSON) : option (option string) :=
  match p with
  | Some JNull => Some None
  | Some (JStr s) => Some (Some s)
  | _ => None
  end.

(** [v.safeParseAsync(postgrestErrorSchema, errorData)]: [Some output] when
    [parsed.success], [None] otherwise.  The schema is
    [v.object({ message: v.string(), details: v.nullable(v.string()),
    hint: v.nullable(v.string()), code: v.string() })]; unknown keys of the
    input are dropped from the output. *)
Definition safeParse_postgrestErrorSchema (errorData : JSON)
  : option PostgrestErrorResponse :=
  match errorData with
  | JObj props =>
      m ← parse_string (JSON_prop props "message");
      d ← parse_nullable_string (JSON_prop props "details");
      h ← parse_nullable_string (JSON_prop props "hint");
      c ← parse_string (JSON_prop props "code");
      Some {| message := m; details := d; hint := h; code := c |}
  | _ => None
  end.

(** ** Request options *)

(** [ParamValue = string | number | boolean | undefined | null]. *)
Inductive ParamValue :=
| PStr (s : string)
| PNum (n : number)
| PBool (b : bool)
| PUndefined
| PNull.

(** [value !== undefined && value !== null]. *)
Definition is_present (value : ParamValue) : bool :=
  match value with
  | PUndefined | PNull => false
  | _ => true
  end.

(** [String(value)] on a parameter value. *)
Definition String_of (value : ParamValue) : string :=
  match value with
  | PStr s => s
  | PNum n => Number_toString n
  | PBool true => "true"
  | PBool false => "false"
  | PUndefined => "undefined"
  | PNull => "null"
  end.

(** A [Record<string, ParamValue>]: its entries as [Object.entries] lists
    them; the keys of an object are distinct. *)
Definition Params := list (string * ParamValue).

(** Assignment of a property, as the object literal [{ ...o, key: value }]
    does after the spread: an existing key keeps its place and takes the new
    value, a new key goes last. *)
Fixpoint Params_set (o : Params) (key : string) (value : ParamValue) : Params :=
  match o with
  | [] => [(key, value)]
  | (k, v) :: r =>
      if String.eqb k key then (k, value) :: r else (k, v) :: Params_set r key value
  end.

(** The result of [schema["~standard"].validate(data)]: [issues] is
    [undefined] on success and an array on failure. *)
Inductive ValidationResult :=
| ValidationSuccess (value : JSON)
| ValidationFailure (issues : list JSON).

(** A schema argument: an object without the ["~standard"] property, or a
    Standard Schema with its [validate] function. *)
Inductive Schema :=
| NotStandardSchema
| StandardSchema (validate : JSON -> ValidationResult).

(** [BaseRequestOptions & { params?, data? }].  [token] has three states:
    [None] when the field is [undefined], [Some None] when it is [null],
    [Some (Some t)] for a string.  [headers] is the [headers] field of the
    passthrough [RequestInit]; a passthrough [method] or [body] is
    overwritten by the client and is not kept. *)
Record RequestOptions := {
  endpoint : string;
  token : option (option string);
  schema : option Schema;
  params : option Params;
  data : option JSON;
  headers : option (list (string * string));
  rest : RequestInit_rest;
}.

(** The arguments of the [fetch] call. *)
Record Request := {
  req_url : URL;
  req_method : string;
  req_headers : Headers;
  req_body : option string;
  req_rest : RequestInit_rest;
}.

(** A [Response]: its [status] and what [response.json()] gives, [inl msg]
    when it rejects with a [SyntaxError]. *)
Record Response := {
  status : N;
  json : string + JSON;
}.

(** [response.ok]: the status is in the range 200-299. *)
Definition ok (response : Response) : bool :=
  (200 <=? status response) && (status response <=? 299).

(** ** The host's functions *)

(** [URL_new input base] is [new URL(input, base)], [inl msg] when it throws
    a [TypeError] with message [msg]; [URL_href] is the [href] of a URL,
    which is also its [String(url)]; [JSON_stringify v space] is
    [JSON.stringify(v, null, space)]; [URLSearchParams_toString] serialises
    a list of pairs; [Headers_TypeError operation name value] is the message
    of the [TypeError] that [new Headers] (operation ["Headers"]) or
    [headers.set] (operation ["set"]) throws for a name or value that is
    not valid; [fetch] is what the transport answers to a request. *)
Class Platform := {
  URL_new : string -> option URL -> string + URL;
  URL_href : URL -> string;
  JSON_stringify : JSON -> nat -> string;
  URLSearchParams_toString : list (string * string) -> string;
  Headers_TypeError : string -> string -> string -> string;
  fetch : Request -> Outcome Response;
}.

Context `{Platform}.

(** ** Effects *)

(** The calls to the outside a task makes, in order. *)
Inductive Event :=
| EvFetch (request : Request)
| EvJson
| EvConsoleError (label : string)
| EvValidate (data : JSON).

(** An [async] computation: the events it produced and how its promise
    settled. *)
Definition Task (A : Type) : Type := list Event * Outcome A.

Definition Task_ret {A} (a : A) : Task A := ([], Resolved a).

Definition Task_bind {A B} (m : Task A) (k : A -> Task B) : Task B :=
  match m with
  | (t, Resolved a) => let (t', o) := k a in (t ++ t', o)
  | (t, Rejected e) => (t, Rejected e)
  end.

#[global] Instance Task_mret : MRet Task := @Task_ret.
#[global] Instance Task_mbind : MBind Task := fun A B k m => Task_bind m k.

Definition throw {A} (e : Thrown) : Task A := ([], Rejected e).

Definition emit (ev : Event) : Task unit := ([ev], Resolved tt).

(** [try { m } catch { handler }]. *)
Definition try_catch {A} (m : Task A) (handler : Thrown -> Task A) : Task A :=
  match m with
  | (t, Resolved a) => (t, Resolved a)
  | (t, Rejected e) => let (t', o) := handler e in (t ++ t', o)
  end.

Definition trace {A} (m : Task A) : list Event := fst m.
Definition outcome {A} (m : Task A) : Outcome A := snd m.

(** The requests a task handed to [fetch]. *)
Fixpoint requests_of (t : list Event) : list Request :=
  match t with
  | [] => []
  | EvFetch r :: t' => r :: requests_of t'
  | _ :: t' => requests_of t'
  end.

Definition requests {A} (m : Task A) : list Request := requests_of (trace m).

(** [await fetch(url, init)]. *)
Definition await_fetch (request : Request) : Task Response :=
  match fetch request with
  | Resolved response => ([EvFetch request], Resolved response)
  | Rejected e => ([EvFetch request], Rejected e)
  end.

(** [await response.json()]. *)
Definition response_json (response : Response) : Task JSON :=
  match json response with
  | inr v => ([EvJson], Resolved v)
  | inl msg => ([EvJson], Rejected (HostError "SyntaxError" msg))
  end.

(** ** The client (class [PostgrestClient]) *)

(** [baseURL: string | URL], stored as given. *)
Inductive BaseURL :=
| BaseString (s : string)
| BaseObject (u : URL).

Record PostgrestClient := {
  baseURL : BaseURL;
  defaultToken : option string;
}.

(** [constructor(baseURL, defaultToken = null)]: both arguments are stored;
    nothing is parsed. *)
Definition constructor (baseURL : BaseURL) (defaultToken : option string)
  : PostgrestClient :=
  {| baseURL := baseURL; defaultToken := defaultToken |}.

(** [setToken(token)]: [this.defaultToken = token]. *)
Definition setToken (this : PostgrestClient) (token : option string)
  : PostgrestClient :=
  {| baseURL := baseURL this; defaultToken := token |}.

(** Truthiness of a [string | URL]: only the empty string is falsy. *)
Definition BaseURL_truthy (b : BaseURL) : bool :=
  match b with
  | BaseString "" => false
  | _ => true
  end.

(** [String(b)], also what [new URL(b)] parses and what a template literal
    prints. *)
Definition BaseURL_toString (b : BaseURL) : string :=
  match b with
  | BaseString s => s
  | BaseObject u => URL_href u
  end.

(** [createPostgrestClient(baseURL, defaultToken = null)]:
    [new PostgrestClient(baseURL || "", defaultToken)], with [None] for an
    [undefined] base. *)
Definition createPostgrestClient (baseURL : option BaseURL)
    (defaultToken : option string) : PostgrestClient :=
  match baseURL with
  | Some b => if BaseURL_truthy b then constructor b defaultToken
              else constructor (BaseString "") defaultToken
  | None => constructor (BaseString "") defaultToken
  end.

(** [validateData(schema, data)]. *)
Definition validateData (schema : Schema) (data : JSON) : Task JSON :=
  match schema with
  | NotStandardSchema =>
      throw (JsError "Provided schema is not a valid Standard Schema")
  | StandardSchema validate =>
      _ ← emit (EvValidate data);
      match validate data with
      | ValidationFailure issues =>
          throw (JsError ("Schema Validation Error: "
                          +:+ JSON_stringify (JArr issues) 2))
      | ValidationSuccess value => mret value
      end
  end.

(** The [try] block of [fetchWithAuth]: [inl msg] when it throws an error
    whose message is [msg]. *)
Definition resolve_url (this : PostgrestClient) (endpoint : string)
  : string + URL :=
  if negb (BaseURL_truthy (baseURL this)) then inl "Base URL is not defined"
  else
    match URL_new (BaseURL_toString (baseURL this)) None with
    | inl msg => inl msg
    | inr base =>
        let cleanEndpoint := strip_leading_slash endpoint in
        URL_new cleanEndpoint (Some base)
    end.

(** The [try]/[catch] around it: a failure is thrown again as an [Error]
    that names the base and the endpoint. *)
Definition construct_url (this : PostgrestClient) (endpoint : string)
  : Thrown + URL :=
  match resolve_url this endpoint with
  | inr url => inr url
  | inl msg =>
      inl (JsError ("Failed to construct URL (base: "
                    +:+ BaseURL_toString (baseURL this)
                    +:+ ", endpoint: " +:+ endpoint +:+ "): " +:+ msg))
  end.

(** Step 1, the [forEach] over [Object.entries(params)]. *)
Definition append_param (url : URL) (entry : string * ParamValue) : URL :=
  let (key, value) := entry in
  if is_present value then searchParams_append url key (String_of value)
  else url.

Definition append_params (url : URL) (params : option Params) : URL :=
  match params with
  | Some entries => fold_left append_param entries url
  | None => url
  end.

(** [token !== undefined ? token : this.defaultToken]. *)
Definition effectiveToken (this : PostgrestClient)
    (token : option (option string)) : option string :=
  match token with
  | Some t => t
  | None => defaultToken this
  end.

(** Truthiness of a [string | null]. *)
Definition token_truthy (t : option string) : bool :=
  match t with
  | Some "" | None => false
  | Some _ => true
  end.

(** The [TypeError] of a [Headers] operation that fails. *)
Definition header_failure (operation : string) (r : string * string + Headers)
  : Thrown + Headers :=
  match r with
  | inl (name, value) =>
      inl (HostError "TypeError" (Headers_TypeError operation name value))
  | inr h => inr h
  end.

(** Step 2, the headers of the request; it is outside the [try] block, so a
    [TypeError] of [new Headers] or [headers.set] leaves [fetchWithAuth]. *)
Definition build_headers (this : PostgrestClient) (options : RequestOptions)
  : Thrown + Headers :=
  match header_failure "Headers" (Headers_new (default [] (headers options))) with
  | inl e => inl e
  | inr headers0 =>
      let effective := effectiveToken this (token options) in
      match (if token_truthy effective
             then header_failure "set"
                    (Headers_set headers0 "Authorization"
                       ("Bearer " +:+ default "" effective))
             else inr headers0) with
      | inl e => inl e
      | inr headers1 =>
          match header_failure "set"
                  (Headers_set headers1 "Content-Type" "application/json") with
          | inl e => inl e
          | inr headers2 =>
              header_failure "set"
                (Headers_set headers2 "Accept" "application/json")
          end
      end
  end.

(** Steps 1 to 3 up to the [fetch] call: the request it is given. *)
Definition build_request (method : string) (options : RequestOptions)
    (url : URL) (headers : Headers) : Request :=
  {| req_url := append_params url (params options);
     req_method := method;
     req_headers := headers;
     req_body := (fun d => JSON_stringify d 0) <$> data options;
     req_rest := rest options |}.

(** Step 4, the branch [if (!response.ok)]: it always throws. *)
Definition reject_response (response : Response) : Task JSON :=
  errorData ← try_catch (response_json response)
     (fun _ => throw (JsError ("HTTP Error " +:+ pretty (status response)
                  +:+ ": Failed to parse JSON error response")));
  match safeParse_postgrestErrorSchema errorData with
  | None =>
      _ ← emit (EvConsoleError "PostgREST Error Parsing Failed:");
      throw (JsError ("Internal Client Error: Invalid error format from server ("
                      +:+ pretty (status response) +:+ ")"))
  | Some output =>
      throw (ClientError (new_PostgrestClientError (status response) output))
  end.

(** Steps 4 and 5, what [fetchWithAuth] does with the response. *)
Definition handle_response (schema : option Schema) (response : Response)
  : Task JSON :=
  if negb (ok response) then reject_response response
  else if (status response =? 204) || (status response =? 202)
  then mret JNull
  else
    resData ← response_json response;
    match schema with
    | Some s => validateData s resData
    | None => mret resData
    end.

(** [fetchWithAuth(method, options)]. *)
Definition fetchWithAuth (this : PostgrestClient) (method : string)
    (options : RequestOptions) : Task JSON :=
  match construct_url this (endpoint options) with
  | inl e => throw e
  | inr url =>
      match build_headers this options with
      | inl e => throw e
      | inr headers =>
          response ← await_fetch (build_request method options url headers);
          handle_response (schema options) response
      end
  end.

(** ** Public operations *)

Definition get (this : PostgrestClient) (options : RequestOptions) : Task JSON :=
  fetchWithAuth this "GET" options.

(** The options [getFirst] hands to [fetchWithAuth]:
    [{ ...options, params: { ...(options.params || {}), limit: "1" },
       schema: undefined }]. *)
Definition getFirst_options (options : RequestOptions) : RequestOptions :=
  let baseParams := default [] (params options) in
  let allParams := Params_set baseParams "limit" (PStr "1") in
  {| endpoint := endpoint options;
     token := token options;
     schema := None;
     params := Some allParams;
     data := data options;
     headers := headers options;
     rest := rest options |}.

(** The part of [getFirst] after the [await]. *)
Definition unwrap_first (schema : option Schema) (data : JSON) : Task JSON :=
  match data with
  | JArr (firstItem :: _) =>
      match schema with
      | Some s => validateData s firstItem
      | None => mret firstItem
      end
  | _ => throw (JsError "No data found")
  end.

Definition getFirst (this : PostgrestClient) (options : RequestOptions)
  : Task JSON :=
  data ← fetchWithAuth this "GET" (getFirst_options options);
  unwrap_first (schema options) data.

Definition post (this : PostgrestClient) (options : RequestOptions) : Task JSON :=
  fetchWithAuth this "POST" options.

Definition patch (this : PostgrestClient) (options : RequestOptions) : Task JSON :=
  fetchWithAuth this "PATCH" options.

Definition delete (this : PostgrestClient) (options : RequestOptions) : Task JSON :=
  fetchWithAuth this "DELETE" options.

(** The five public operations, to speak of a call of any of them. *)
Inductive Operation := OpGet | OpGetFirst | OpPost | OpPatch | OpDelete.

Definition call (op : Operation) (this : PostgrestClient)
    (options : RequestOptions) : Task JSON :=
  match op with
  | OpGet => get this options
  | OpGetFirst => getFirst this options
  | OpPost => post this options
  | OpPatch => patch this options
  | OpDelete => delete this options
  end.

(** ** Vocabulary of the properties *)

(** The entries step 2 of the pipeline is specified to append: one
    [key=String(value)] for each entry whose value is neither [undefined]
    nor [null], in the order of the entries. *)
Definition query_entries (entries : Params) : list (string * string) :=
  map (fun kv => (fst kv, String_of (snd kv)))
      (List.filter (fun kv => is_present (snd kv)) entries).

(** How many pairs of a query have the name [key]. *)
Definition occurrences (key : string) (query : list (string * string)) : nat :=
  length (List.filter (fun kv => String.eqb (fst kv) key) query).

(** The method and the options an operation hands to [fetchWithAuth], and
    what it does with the result. *)
Definition method_of (op : Operation) : string :=
  match op with
  | OpGet | OpGetFirst => "GET"
  | OpPost => "POST"
  | OpPatch => "PATCH"
  | OpDelete => "DELETE"
  end.

Definition pipeline_options (op : Operation) (options : RequestOptions)
  : RequestOptions :=
  match op with
  | OpGetFirst => getFirst_options options
  | _ => options
  end.

Definition finish (op : Operation) (options : RequestOptions) (data : JSON)
  : Task JSON :=
  match op with
  | OpGetFirst => unwrap_first (schema options) data
  | _ => mret data
  end.

(** [{ ...options, token }]. *)
Definition with_token (options : RequestOptions) (t : option (option string))
  : RequestOptions :=
  {| endpoint := endpoint options;
     token := t;
     schema := schema options;
     params := params options;
     data := data options;
     headers := headers options;
     rest := rest options |}.

(** What the caller's passthrough headers hold under [name], as a
    [Headers] object stores it: the values given under that name in any
    letter case, each normalized, joined by ", ". *)
Definition caller_header (init : list (string * string)) (name : string)
  : option string :=
  combine_values
    (map (fun kv => normalize_value (snd kv))
         (List.filter (fun kv => String.eqb (lower (fst kv)) (lower name))
                      init)).

(** [Array.isArray(data)]. *)
Definition isArray (data : JSON) : bool :=
  match data with
  | JArr _ => true
  | _ => false
  end.

(** What the properties say of a query with respect to the parameter map:
    a key with an [undefined] or [null] value is not a name of the query;
    every other key is the name of one pair, [key=String(value)]. *)
Definition query_as_claimed (entries : Params) (query : list (string * string))
  : Prop :=
  (forall key value, (key, value) ∈ entries -> is_present value = false ->
     key ∉ map fst query) /\
  (forall key value, (key, value) ∈ entries -> is_present value = true ->
     occurrences key query = 1%nat /\ (key, String_of value) ∈ query).

(** [{ ...options, endpoint }]. *)
Definition with_endpoint (options : RequestOptions) (e : string)
  : RequestOptions :=
  {| endpoint := e;
     token := token options;
     schema := schema options;
     params := params options;
     data := data options;
     headers := headers options;
     rest := rest options |}.

(** The body of an error response that carries the envelope [e]: the
    object PostgREST sends, with its four keys. *)
Definition envelope_to_JSON (e : PostgrestErrorResponse) : JSON :=
  let nullable (field : option string) : JSON :=
    match field with
    | Some s => JStr s
    | None => JNull
    end in
  JObj [("code", JStr (code e));
        ("details", nullable (details e));
        ("hint", nullable (hint e));
        ("message", JStr (message e))].

End Model.

(** ** The earlier revision of the class (src/index.ts)

    It differs from the class above in two places: the constructor parses
    the base at once, and the query is serialised and joined to the endpoint
    before the URL is parsed; values are not filtered. *)
Module Legacy.
Section Client.
Context `{Platform}.

(** The client of the later revision with the same base and credential: the
    two revisions build the headers alike. *)
Definition later_client (base : URL) (defaultToken : option string)
  : PostgrestClient :=
  constructor (BaseObject base) defaultToken.

Record PostgrestClient := {
  baseURL : URL;
  defaultToken : option string;
}.

(** [this.baseURL = new URL(baseURL)]: a [TypeError] of [URL] leaves the
    constructor. *)
Definition constructor (base : BaseURL) (defaultToken : option string)
  : Outcome PostgrestClient :=
  match URL_new (BaseURL_toString base) None with
  | inl msg => Rejected (HostError "TypeError" msg)
  | inr url => Resolved {| baseURL := url; defaultToken := defaultToken |}
  end.

(** [urlString.includes("?")]. *)
Fixpoint includes_question (s : string) : bool :=
  match s with
  | EmptyString => false
  | String c r => if Ascii.eqb c "?" then true else includes_question r
  end.

(** Step 1 of the earlier [fetchWithAuth]; [new URLSearchParams(params)]
    takes each value through [String]. *)
Definition url_string (endpoint : string) (params : option Params) : string :=
  match params with
  | Some (e :: es) =>
      let queryString :=
        URLSearchParams_toString
          (map (fun kv => (fst kv, String_of (snd kv))) (e :: es)) in
      endpoint +:+ (if includes_question endpoint then "&" else "?")
               +:+ queryString
  | _ => endpoint
  end.

Definition fetchWithAuth (this : PostgrestClient) (method : string)
    (options : RequestOptions) : Task JSON :=
  let urlString := url_string (endpoint options) (params options) in
  match URL_new (strip_leading_slash urlString) (Some (baseURL this)) with
  | inl msg => throw (HostError "TypeError" msg)
  | inr url =>
      let current := later_client (baseURL this) (defaultToken this) in
      match build_headers current options with
      | inl e => throw e
      | inr headers =>
          response ← await_fetch
            {| req_url := url;
               req_method := method;
               req_headers := headers;
               req_body := (fun d => JSON_stringify d 0) <$> data options;
               req_rest := rest options |};
          handle_response (schema options) response
      end
  end.

(** The public operations of the earlier revision. *)
Definition get (this : PostgrestClient) (options : RequestOptions) : Task JSON :=
  fetchWithAuth this "GET" options.

(** [{ ...options.params, limit: "1" }] is the map [getFirst_options] builds:
    spreading [undefined] adds nothing. *)
Definition getFirst (this : PostgrestClient) (options : RequestOptions)
  : Task JSON :=
  data ← fetchWithAuth this "GET" (getFirst_options options);
  unwrap_first (schema options) data.

Definition post (this : PostgrestClient) (options : RequestOptions) : Task JSON :=
  fetchWithAuth this "POST" options.

Definition patch (this : PostgrestClient) (options : RequestOptions) : Task JSON :=
  fetchWithAuth this "PATCH" options.

Definition delete (this : PostgrestClient) (options : RequestOptions) : Task JSON :=
  fetchWithAuth this "DELETE" options.

(** The pairs [new URLSearchParams(params)] holds. *)
Definition pairs_of (entries : Params) : list (string * string) :=
  map (fun kv => (fst kv, String_of (snd kv))) entries.

(** The request the earlier [fetchWithAuth] hands to [fetch] once the URL
    is parsed. *)
Definition request_of (method : string) (options : RequestOptions)
    (url : URL) (headers : Headers) : Request :=
  {| req_url := url;
     req_method := method;
     req_headers := headers;
     req_body := (fun d => JSON_stringify d 0) <$> data options;
     req_rest := rest options |}.

End Client.
End Legacy.

(** ** A reference host

    Numbers are the integers with their decimal notation; the URL functions
    are the fragment of the URL standard for [http] and [https] inputs that
    have no fragment, no dot segment and no character to escape;
    [JSON.stringify] is the compact form on strings without a character to
    escape; the message of a [TypeError] of [Headers] names the operation
    and the header; the transport is a parameter. *)
Module Reference.

Definition host : Host :=
  {| number := Z; Number_toString := pretty; RequestInit_rest := unit |}.

(** [split_at c s]: the text before the first [c] and, when there is one,
    the text after it. *)
Fixpoint split_at (c : ascii) (s : string) : string * option string :=
  match s with
  | EmptyString => (EmptyString, None)
  | String a r =>
      if Ascii.eqb a c then (EmptyString, Some r)
      else let (before, after) := split_at c r in (String a before, after)
  end.

(** The pieces of [s] between occurrences of [c]; [fuel] bounds their
    number. *)
Fixpoint pieces (fuel : nat) (c : ascii) (s : string) : list string :=
  match fuel with
  | O => [s]
  | S fuel' =>
      match split_at c s with
      | (before, Some after) => before :: pieces fuel' c after
      | (before, None) => [before]
      end
  end.

(** The name-value pairs of a query string. *)
Definition parse_query (q : string) : list (string * string) :=
  map (fun piece => let (k, v) := split_at "=" piece in (k, default "" v))
      (List.filter (fun piece => negb (String.eqb piece ""))
              (pieces (String.length q) "&" q)).

Definition serialize_query (pairs : list (string * string)) : string :=
  String.concat "&" (map (fun kv => fst kv +:+ "=" +:+ snd kv) pairs).

(** The text after the scheme of an [http] or [https] URL. *)
Definition after_scheme (s : string) : option string :=
  if String.prefix "https://" s then Some (String.substring 8 (String.length s - 8) s)
  else if String.prefix "http://" s then Some (String.substring 7 (String.length s - 7) s)
  else None.

(** Whether [c] occurs in [s]. *)
Fixpoint contains (c : ascii) (s : string) : bool :=
  match s with
  | EmptyString => false
  | String a r => if Ascii.eqb a c then true else contains c r
  end.

(** The path up to and with its last slash. *)
Fixpoint directory (path : string) : string :=
  match path with
  | EmptyString => EmptyString
  | String a r =>
      if contains "/" r then String a (directory r)
      else if Ascii.eqb a "/" then String a EmptyString else EmptyString
  end.

Definition parse_absolute (input : string) : string + URL :=
  match after_scheme input with
  | None => inl "Invalid URL"
  | Some tail =>
      let (before, query) := split_at "?" input in
      let (host_and_path, _) := split_at "?" tail in
      if String.eqb host_and_path "" then inl "Invalid URL"
      else
        let path :=
          if contains "/" host_and_path then before else before +:+ "/" in
        inr {| url_path := path;
               searchParams := parse_query (default "" query);
               url_hash := "" |}
  end.

Definition parse_url (input : string) (base : option URL) : string + URL :=
  match base with
  | None => parse_absolute input
  | Some b =>
      match after_scheme input with
      | Some _ => parse_absolute input
      | None =>
          let (path, query) := split_at "?" input in
          if String.eqb path "" then
            inr {| url_path := url_path b;
                   searchParams :=
                     match query with
                     | Some q => parse_query q
                     | None => searchParams b
                     end;
                   url_hash := "" |}
          else
            inr {| url_path := directory (url_path b) +:+ path;
                   searchParams := parse_query (default "" query);
                   url_hash := "" |}
      end
  end.

Definition href (u : URL) : string :=
  url_path u
  +:+ match searchParams u with
      | [] => ""
      | pairs => "?" +:+ serialize_query pairs
      end
  +:+ url_hash u.

Definition quote : string := String (ascii_of_N 34) EmptyString.

Fixpoint stringify (v : @JSON host) (space : nat) : string :=
  match v with
  | JNull => "null"
  | JBool true => "true"
  | JBool false => "false"
  | JNum n => pretty (n : Z)
  | JStr s => quote +:+ s +:+ quote
  | JArr items =>
      "[" +:+ String.concat ","
                (map (fun item => stringify item space) items) +:+ "]"
  | JObj props =>
      "{" +:+ String.concat ","
                (map (fun kv => quote +:+ fst kv +:+ quote +:+ ":"
                                +:+ stringify (snd kv) space) props)
          +:+ "}"
  end.

(** The host whose transport answers [answer request]. *)
Definition platform (answer : @Request host -> Outcome (@Response host))
  : @Platform host :=
  {| URL_new := parse_url;
     URL_href := href;
     JSON_stringify := stringify;
     URLSearchParams_toString := serialize_query;
     Headers_TypeError := fun operation name value =>
       operation +:+ ": invalid header " +:+ name +:+ ": " +:+ value;
     fetch := answer |}.

(** The host whose transport answers every request with [response]. *)
Definition answering (response : @Response host) : @Platform host :=
  platform (fun _ => Resolved response).

(** Example data: a client with a default credential, options with only an
    endpoint, and the URL of [/users] against the client's base. *)
Definition api : PostgrestClient :=
  constructor (BaseString "https://api.example.com") (Some "secret").

Definition options_of (endpoint : string) : @RequestOptions host :=
  {| endpoint := endpoint; token := None; schema := None; params := None;
     data := None; headers := None; rest := (tt : @RequestInit_rest host) |}.

Definition with_params (options : @RequestOptions host) (entries : @Params host)
  : @RequestOptions host :=
  {| endpoint := endpoint options; token := token options;
     schema := schema options; params := Some entries;
     data := data options; headers := headers options; rest := rest options |}.

Definition with_headers (options : @RequestOptions host)
    (init : list (string * string)) : @RequestOptions host :=
  {| endpoint := endpoint options; token := token options;
     schema := schema options; params := params options;
     data := data options; headers := Some init; rest := rest options |}.

Definition with_schema (options : @RequestOptions host) (s : @Schema host)
  : @RequestOptions host :=
  {| endpoint := endpoint options; token := token options;
     schema := Some s; params := params options;
     data := data options; headers := headers options; rest := rest options |}.

Definition users_url : URL :=
  {| url_path := "https://api.example.com/users"; searchParams := [];
     url_hash := "" |}.

Definition empty_rows : @Response host :=
  {| status := 200; json := inr (JArr []) |}.

Definition no_content : @Response host :=
  {| status := 204; json := inl "Unexpected end of JSON input" |}.

Definition not_found_envelope : @JSON host :=
  JObj [("code", JStr "PGRST205"); ("details", JNull);
        ("hint", JStr "Perhaps you meant the table users");
        ("message", JStr "Could not find the table")].

Definition one_row : @JSON host := JArr [JObj [("id", @JNum host 1%Z)]].

(** The headers of the request of [this] for [options], when they can be
    built. *)
Definition headers_for (this : PostgrestClient) (options : @RequestOptions host)
  : Headers :=
  match @build_headers host (platform (fun _ => Resolved empty_rows))
          this options with
  | inr h => h
  | inl _ => []
  end.

(** The parsed base of [api], and the client of the earlier revision on
    it. *)
Definition api_base : URL :=
  {| url_path := "https://api.example.com/"; searchParams := [];
     url_hash := "" |}.

Definition legacy_api : Legacy.PostgrestClient :=
  {| Legacy.baseURL := api_base; Legacy.defaultToken := Some "secret" |}.

(** A credential with a line feed in it. *)
Definition line_break_token : string :=
  "a" +:+ String (ascii_of_N 10) "b".

Definition server_error : @Response host :=
  {| status := 500; json := inr (JObj [("error", JStr "x")]) |}.

(** A schema that accepts objects and nothing else. *)
Definition object_schema : @Schema host :=
  StandardSchema (fun value =>
    match value with
    | JObj _ => ValidationSuccess value
    | _ => ValidationFailure [JStr "Invalid type: Expected Object"]
    end).

End Reference.

(** * Properties *)

Section Properties.
Context `{Platform}.

(** ** The task monad *)

Lemma Task_bind_ret_r {A} (m : Task A) : Task_bind m Task_ret = m.
Proof.
  destruct m as [t [a | e]]; cbn; [rewrite app_nil_r|]; reflexivity.
Qed.

Lemma requests_of_app (t t' : list Event) :
  requests_of (t ++ t') = requests_of t ++ requests_of t'.
Proof.
  induction t as [| ev t IH]; [reflexivity|].
  destruct ev; cbn; rewrite IH; reflexivity.
Qed.

Lemma requests_bind {A B} (m : Task A) (k : A -> Task B) :
  requests (Task_bind m k) =
  requests m ++ match outcome m with
                | Resolved a => requests (k a)
                | Rejected _ => []
                end.
Proof.
  destruct m as [t [a | e]]; unfold requests, trace, outcome; cbn.
  - destruct (k a) as [t' o]; cbn. apply requests_of_app.
  - rewrite app_nil_r; reflexivity.
Qed.

(** ** Query composition *)

Lemma append_params_fold (entries : Params) (url : URL) :
  searchParams (fold_left append_param entries url) =
  searchParams url ++ query_entries entries.
Proof.
  revert url; induction entries as [| [key value] entries IH]; intros url.
  - cbn. rewrite app_nil_r; reflexivity.
  - cbn [fold_left]. rewrite IH. unfold query_entries, append_param. cbn.
    destruct (is_present value); cbn; [rewrite <- app_assoc|]; reflexivity.
Qed.

Lemma query_entries_elem (entries : Params) (key value : string) :
  (key, value) ∈ query_entries entries <->
  exists v, (key, v) ∈ entries /\ is_present v = true /\ value = String_of v.
Proof.
  unfold query_entries. rewrite list_elem_of_In, in_map_iff. split.
  - intros [[k v] [Heq Hin]]. apply filter_In in Hin as [Hin Hp].
    cbn in *. inversion Heq; subst. exists v. rewrite list_elem_of_In; auto.
  - intros (v & Hin & Hp & ->). exists (key, v). split; [reflexivity|].
    apply filter_In. rewrite <- list_elem_of_In; auto.
Qed.

Lemma elem_keys {V} (entries : list (string * V)) (key : string) :
  key ∈ map fst entries <-> exists v, (key, v) ∈ entries.
Proof.
  rewrite list_elem_of_In, in_map_iff. split.
  - intros [[k v] [Hk Hin]]. cbn in Hk; subst k. exists v.
    apply list_elem_of_In, Hin.
  - intros [v Hin]. exists (key, v). split; [reflexivity|].
    apply list_elem_of_In, Hin.
Qed.

Lemma occurrences_absent (key : string) (query : list (string * string)) :
  key ∉ map fst query -> occurrences key query = 0%nat.
Proof.
  unfold occurrences. induction query as [| [k v] query IH]; [reflexivity|].
  cbn. intros Hnot. destruct (String.eqb_spec k key) as [-> | Hne].
  - exfalso; apply Hnot; left.
  - apply IH. intros Hin; apply Hnot; right; exact Hin.
Qed.

Lemma occurrences_app (key : string) (q q' : list (string * string)) :
  occurrences key (q ++ q') = (occurrences key q + occurrences key q')%nat.
Proof.
  unfold occurrences. rewrite List.filter_app, length_app. reflexivity.
Qed.

Lemma query_entries_keys (entries : Params) (key : string) :
  key ∈ map fst (query_entries entries) -> key ∈ map fst entries.
Proof.
  rewrite !elem_keys. intros [value Hin].
  apply query_entries_elem in Hin as (v & Hin & _). exists v; exact Hin.
Qed.

(** With distinct keys, a key occurs among the appended entries once when
    its value is present and not at all otherwise. *)
Lemma occurrences_query_entries (entries : Params) (key : string) (v : ParamValue) :
  NoDup (map fst entries) -> (key, v) ∈ entries ->
  occurrences key (query_entries entries) = if is_present v then 1%nat else 0%nat.
Proof.
  induction entries as [| [k w] entries IH]; [intros _ Hin; inversion Hin|].
  cbn [map fst]. intros Hnd Hin.
  apply NoDup_cons in Hnd as [Hnot Hnd].
  apply elem_of_cons in Hin as [Heq | Hin].
  - inversion Heq; subst k w; clear Heq.
    assert (Hrest : occurrences key (query_entries entries) = 0%nat)
      by (apply occurrences_absent; intros Hin; apply Hnot, query_entries_keys, Hin).
    unfold occurrences, query_entries in *. cbn.
    destruct (is_present v); cbn; [rewrite String.eqb_refl; cbn|];
      rewrite Hrest; reflexivity.
  - assert (Hne : k <> key).
    { intros ->. apply Hnot. apply elem_keys. exists v; exact Hin. }
    specialize (IH Hnd Hin). unfold occurrences, query_entries in *. cbn.
    destruct (is_present w); cbn; [|exact IH].
    destruct (String.eqb_spec k key); [contradiction | exact IH].
Qed.

(** ** Assignment of a property *)

Lemma Params_set_elem (o : Params) (key : string) (value : ParamValue) :
  (key, value) ∈ Params_set o key value.
Proof.
  induction o as [| [k v] o IH]; cbn; [left|].
  destruct (String.eqb_spec k key) as [-> | _]; [left | right; exact IH].
Qed.

Lemma Params_set_other (o : Params) (key k : string) (value v : ParamValue) :
  k <> key -> (k, v) ∈ o -> (k, v) ∈ Params_set o key value.
Proof.
  intros Hne. induction o as [| [k' v'] o IH]; cbn; [intros Hin; inversion Hin|].
  intros Hin. apply elem_of_cons in Hin as [Heq | Hin];
    destruct (String.eqb_spec k' key) as [-> | _].
  - inversion Heq; subst; contradiction.
  - rewrite Heq; left.
  - right; exact Hin.
  - right; apply IH, Hin.
Qed.

Lemma Params_set_keys (o : Params) (key : string) (value : ParamValue) :
  map fst (Params_set o key value) =
  if existsb (String.eqb key) (map fst o) then map fst o else map fst o ++ [key].
Proof.
  induction o as [| [k v] o IH]; [reflexivity|].
  cbn. rewrite String.eqb_sym.
  destruct (String.eqb_spec key k) as [-> | _]; cbn; [reflexivity|].
  rewrite IH. destruct (existsb _ _); reflexivity.
Qed.

Lemma Params_set_NoDup (o : Params) (key : string) (value : ParamValue) :
  NoDup (map fst o) -> NoDup (map fst (Params_set o key value)).
Proof.
  intros Hnd. rewrite Params_set_keys.
  destruct (existsb (String.eqb key) (map fst o)) eqn:Hex; [exact Hnd|].
  apply NoDup_app. split; [exact Hnd|]. split; [|apply NoDup_singleton].
  intros k Hin Hk. apply list_elem_of_singleton in Hk as ->.
  assert (existsb (String.eqb key) (map fst o) = true); [|congruence].
  apply existsb_exists. exists key; split; [|apply String.eqb_refl].
  apply list_elem_of_In, Hin.
Qed.

(** ** Headers *)

Lemma filter_none {A} (f : A -> bool) (l : list A) :
  existsb f l = false -> List.filter f l = [].
Proof.
  induction l as [| a l IH]; [reflexivity|]. cbn.
  destruct (f a); cbn; [discriminate | exact IH].
Qed.

Lemma filter_removed (n : string) (h : Headers) :
  List.filter (fun kv => String.eqb (fst kv) n)
    (List.filter (fun kv => negb (String.eqb (fst kv) n)) h) = [].
Proof.
  induction h as [| [k v] h IH]; [reflexivity|]. cbn.
  destruct (String.eqb k n) eqn:E; cbn; [exact IH|]. rewrite E. exact IH.
Qed.

Lemma filter_kept (n n' : string) (h : Headers) :
  n <> n' ->
  List.filter (fun kv => String.eqb (fst kv) n')
    (List.filter (fun kv => negb (String.eqb (fst kv) n)) h) =
  List.filter (fun kv => String.eqb (fst kv) n') h.
Proof.
  intros Hne. induction h as [| [k v] h IH]; [reflexivity|]. cbn.
  destruct (String.eqb_spec k n) as [-> | _]; cbn.
  - destruct (String.eqb_spec n n'); [contradiction | exact IH].
  - destruct (String.eqb k n'); [rewrite IH|]; auto.
Qed.

Lemma Headers_replace_same (h : Headers) (n value : string) :
  existsb (fun kv => String.eqb (fst kv) n) h = true ->
  List.filter (fun kv => String.eqb (fst kv) n) (Headers_replace h n value) =
  [(n, value)].
Proof.
  induction h as [| [k v] h IH]; [discriminate|]. cbn.
  destruct (String.eqb_spec k n) as [-> | Hne]; cbn.
  - intros _. rewrite String.eqb_refl, filter_removed. reflexivity.
  - intros Hex. apply String.eqb_neq in Hne. rewrite Hne. apply IH, Hex.
Qed.

Lemma Headers_replace_other (h : Headers) (n n' value : string) :
  n <> n' ->
  List.filter (fun kv => String.eqb (fst kv) n') (Headers_replace h n value) =
  List.filter (fun kv => String.eqb (fst kv) n') h.
Proof.
  intros Hne. induction h as [| [k v] h IH]; [reflexivity|]. cbn.
  destruct (String.eqb_spec k n) as [-> | _]; cbn.
  - destruct (String.eqb_spec n n'); [contradiction|].
    apply filter_kept, Hne.
  - destruct (String.eqb k n'); [rewrite IH|]; auto.
Qed.

(** [set] succeeds exactly on a valid name and a value that is valid once
    normalized. *)
Lemma Headers_set_succeeds (h : Headers) (name value : string) :
  (exists h', Headers_set h name value = inr h') <->
  valid_name name = true /\ valid_value (normalize_value value) = true.
Proof.
  unfold Headers_set.
  destruct (valid_name name); destruct (valid_value (normalize_value value));
    cbn;
    (split;
     [ intros [h' Hh]; first [discriminate Hh | split; reflexivity]
     | intros [H1 H2];
       first [discriminate H1 | discriminate H2 | eexists; reflexivity] ]).
Qed.

(** [set] then [get] of the same name gives the value set, normalized. *)
Lemma Headers_get_set (h h' : Headers) (name value : string) :
  Headers_set h name value = inr h' ->
  Headers_get h' name = Some (normalize_value value).
Proof.
  unfold Headers_set. destruct (_ && _); [|discriminate]. intros [= <-].
  unfold Headers_get, Headers_has. destruct (existsb _ h) eqn:Hex.
  - rewrite Headers_replace_same by exact Hex. reflexivity.
  - rewrite List.filter_app, filter_none by exact Hex.
    cbn. rewrite String.eqb_refl. reflexivity.
Qed.

(** [set] leaves the headers of other names as they are. *)
Lemma Headers_get_set_other (h h' : Headers) (name name' value : string) :
  Headers_set h name value = inr h' ->
  lower name <> lower name' ->
  Headers_get h' name' = Headers_get h name'.
Proof.
  unfold Headers_set. destruct (_ && _); [|discriminate]. intros [= <-] Hne.
  unfold Headers_get. destruct (Headers_has h name).
  - rewrite Headers_replace_other by exact Hne. reflexivity.
  - rewrite List.filter_app. cbn.
    destruct (String.eqb_spec (lower name) (lower name')); [contradiction|].
    rewrite app_nil_r. reflexivity.
Qed.

Lemma Headers_fill_filter (init : list (string * string)) (h h' : Headers)
    (name : string) :
  Headers_fill h init = inr h' ->
  List.filter (fun kv => String.eqb (fst kv) (lower name)) h' =
  List.filter (fun kv => String.eqb (fst kv) (lower name)) h
  ++ map (fun kv => (lower (fst kv), normalize_value (snd kv)))
       (List.filter (fun kv => String.eqb (lower (fst kv)) (lower name)) init).
Proof.
  revert h. induction init as [| [n v] init IH]; intros h; cbn.
  - intros [= <-]. rewrite app_nil_r. reflexivity.
  - unfold Headers_append. destruct (_ && _); [|discriminate].
    intros Hfill. rewrite (IH _ Hfill), List.filter_app. cbn.
    destruct (String.eqb (lower n) (lower name)); cbn;
      [rewrite <- app_assoc|rewrite app_nil_r]; reflexivity.
Qed.

(** What a [Headers] object made from [init] holds under a name is what
    the caller gave under it. *)
Lemma Headers_new_get (init : list (string * string)) (h : Headers)
    (name : string) :
  Headers_new init = inr h -> Headers_get h name = caller_header init name.
Proof.
  intros Hnew. unfold Headers_get, caller_header.
  rewrite (Headers_fill_filter _ _ _ name Hnew). cbn.
  rewrite !map_map. reflexivity.
Qed.

Lemma header_failure_inr operation r (h : Headers) :
  header_failure operation r = inr h -> r = inr h.
Proof. destruct r as [[n v] | h0]; cbn; [discriminate | congruence]. Qed.

Lemma header_failure_inl operation r (e : Thrown) :
  header_failure operation r = inl e -> exists msg, e = HostError "TypeError" msg.
Proof.
  destruct r as [[n v] | h0]; cbn; [|discriminate].
  intros [= <-]. eexists; reflexivity.
Qed.

(** The three steps of [build_headers] when it succeeds. *)
Lemma build_headers_inr (this : PostgrestClient) (options : RequestOptions)
    (h : Headers) :
  build_headers this options = inr h ->
  exists headers0 headers1 headers2,
    Headers_new (default [] (headers options)) = inr headers0 /\
    (if token_truthy (effectiveToken this (token options))
     then Headers_set headers0 "Authorization"
            ("Bearer " +:+ default "" (effectiveToken this (token options)))
     else inr headers0) = inr headers1 /\
    Headers_set headers1 "Content-Type" "application/json" = inr headers2 /\
    Headers_set headers2 "Accept" "application/json" = inr h.
Proof.
  unfold build_headers.
  destruct (header_failure "Headers" _) as [e | headers0] eqn:Hs0; [discriminate|].
  apply header_failure_inr in Hs0.
  destruct (token_truthy _) eqn:Htruthy.
  - destruct (header_failure "set" (Headers_set headers0 _ _))
      as [e | headers1] eqn:Hs1; [discriminate|].
    apply header_failure_inr in Hs1.
    destruct (header_failure "set" (Headers_set headers1 _ _))
      as [e | headers2] eqn:Hs2; [discriminate|].
    apply header_failure_inr in Hs2. intros Hs3.
    apply header_failure_inr in Hs3. exists headers0, headers1, headers2. auto.
  - destruct (header_failure "set" (Headers_set headers0 _ _))
      as [e | headers2] eqn:Hs2; [discriminate|].
    apply header_failure_inr in Hs2. intros Hs3.
    apply header_failure_inr in Hs3. exists headers0, headers0, headers2. auto.
Qed.

(** A failure of [build_headers] is a [TypeError] of the host. *)
Lemma build_headers_inl (this : PostgrestClient) (options : RequestOptions)
    (e : Thrown) :
  build_headers this options = inl e -> exists msg, e = HostError "TypeError" msg.
Proof.
  unfold build_headers.
  destruct (header_failure "Headers" _) as [e0 | headers0] eqn:Hs0.
  - intros [= <-]. apply header_failure_inl in Hs0. exact Hs0.
  - destruct (if token_truthy _ then _ else _) as [e1 | headers1] eqn:Hs1.
    + intros [= <-]. destruct (token_truthy _); [|discriminate].
      apply header_failure_inl in Hs1. exact Hs1.
    + destruct (header_failure "set" (Headers_set headers1 _ _))
        as [e2 | headers2] eqn:Hs2.
      * intros [= <-]. apply header_failure_inl in Hs2. exact Hs2.
      * intros Hs3. apply header_failure_inl in Hs3. exact Hs3.
Qed.

(** [build_headers] succeeds exactly when the passthrough headers are valid
    and, if there is a credential, its header value is. *)
Lemma build_headers_succeeds (this : PostgrestClient) (options : RequestOptions) :
  (exists h, build_headers this options = inr h) <->
  (exists headers0, Headers_new (default [] (headers options)) = inr headers0) /\
  (token_truthy (effectiveToken this (token options)) = true ->
   valid_value (normalize_value
                  ("Bearer " +:+ default "" (effectiveToken this (token options))))
   = true).
Proof.
  split.
  - intros [h Hh]. apply build_headers_inr in Hh
      as (headers0 & headers1 & headers2 & Hs0 & Hs1 & _).
    split; [exists headers0; exact Hs0|]. intros Htruthy.
    rewrite Htruthy in Hs1.
    apply (proj1 (Headers_set_succeeds _ _ _) (ex_intro _ headers1 Hs1)).
  - intros [[headers0 Hs0] Hvalid]. unfold build_headers. rewrite Hs0. cbn.
    destruct (token_truthy _).
    + destruct (proj2 (Headers_set_succeeds headers0 "Authorization"
                         ("Bearer "
                          +:+ default "" (effectiveToken this (token options))))
                  (conj eq_refl (Hvalid eq_refl))) as [headers1 Hs1].
      rewrite Hs1. cbn.
      destruct (proj2 (Headers_set_succeeds headers1 "Content-Type"
                         "application/json") (conj eq_refl eq_refl))
        as [headers2 Hs2].
      rewrite Hs2. cbn.
      destruct (proj2 (Headers_set_succeeds headers2 "Accept"
                         "application/json") (conj eq_refl eq_refl))
        as [h Hs3].
      rewrite Hs3. cbn. exists h; reflexivity.
    + destruct (proj2 (Headers_set_succeeds headers0 "Content-Type"
                         "application/json") (conj eq_refl eq_refl))
        as [headers2 Hs2].
      rewrite Hs2. cbn.
      destruct (proj2 (Headers_set_succeeds headers2 "Accept"
                         "application/json") (conj eq_refl eq_refl))
        as [h Hs3].
      rewrite Hs3. cbn. exists h; reflexivity.
Qed.

(** The [Authorization] header of the headers built: the bearer credential,
    normalized, when the effective credential is truthy, what the caller's
    passthrough headers hold otherwise. *)
Lemma build_headers_authorization (this : PostgrestClient)
    (options : RequestOptions) (h : Headers) :
  build_headers this options = inr h ->
  Headers_get h "Authorization" =
  if token_truthy (effectiveToken this (token options))
  then Some (normalize_value
               ("Bearer " +:+ default "" (effectiveToken this (token options))))
  else caller_header (default [] (headers options)) "Authorization".
Proof.
  intros Hh. apply build_headers_inr in Hh
    as (headers0 & headers1 & headers2 & Hs0 & Hs1 & Hs2 & Hs3).
  rewrite (Headers_get_set_other _ _ _ _ _ Hs3) by (cbn; discriminate).
  rewrite (Headers_get_set_other _ _ _ _ _ Hs2) by (cbn; discriminate).
  destruct (token_truthy _).
  - apply (Headers_get_set _ _ _ _ Hs1).
  - injection Hs1 as <-. apply Headers_new_get, Hs0.
Qed.

(** ** The pipeline and the operations *)

Lemma requests_validateData (s : Schema) (data : JSON) :
  requests (validateData s data) = [].
Proof.
  destruct s as [| validate]; [reflexivity|].
  unfold validateData, requests, trace. cbn.
  destruct (validate data); reflexivity.
Qed.

Lemma requests_handle_response (s : option Schema) (response : Response) :
  requests (handle_response s response) = [].
Proof.
  unfold handle_response, reject_response, response_json.
  destruct (negb (ok response)).
  - destruct (json response) as [msg | j]; [reflexivity|]. cbn.
    destruct (safeParse_postgrestErrorSchema j); reflexivity.
  - destruct (_ || _); [reflexivity|].
    destruct (json response) as [msg | j]; [reflexivity|].
    destruct s as [s|]; [|reflexivity].
    unfold mbind, Task_mbind. rewrite requests_bind.
    cbn. apply requests_validateData.
Qed.

Lemma requests_finish (op : Operation) (options : RequestOptions) (data : JSON) :
  requests (finish op options data) = [].
Proof.
  destruct op; try reflexivity. cbn. unfold unwrap_first.
  destruct data as [| | | | [| first others] |]; try reflexivity.
  destruct (schema options); [apply requests_validateData | reflexivity].
Qed.

Lemma fetchWithAuth_unresolved this method options e :
  construct_url this (endpoint options) = inl e ->
  fetchWithAuth this method options = ([], Rejected e).
Proof. intros Hurl. unfold fetchWithAuth. rewrite Hurl. reflexivity. Qed.

Lemma fetchWithAuth_unbuilt this method options url e :
  construct_url this (endpoint options) = inr url ->
  build_headers this options = inl e ->
  fetchWithAuth this method options = ([], Rejected e).
Proof.
  intros Hurl Hh. unfold fetchWithAuth. rewrite Hurl, Hh. reflexivity.
Qed.

Lemma fetchWithAuth_answered this method options url headers response :
  construct_url this (endpoint options) = inr url ->
  build_headers this options = inr headers ->
  fetch (build_request method options url headers) = Resolved response ->
  fetchWithAuth this method options =
  (EvFetch (build_request method options url headers)
     :: trace (handle_response (schema options) response),
   outcome (handle_response (schema options) response)).
Proof.
  intros Hurl Hh Hfetch. unfold fetchWithAuth. rewrite Hurl, Hh.
  unfold mbind, Task_mbind, Task_bind, await_fetch. rewrite Hfetch.
  destruct (handle_response (schema options) response); reflexivity.
Qed.

Lemma fetchWithAuth_requests this method options url headers :
  construct_url this (endpoint options) = inr url ->
  build_headers this options = inr headers ->
  requests (fetchWithAuth this method options) =
  [build_request method options url headers].
Proof.
  intros Hurl Hh. unfold fetchWithAuth. rewrite Hurl, Hh.
  unfold mbind, Task_mbind. rewrite requests_bind. unfold await_fetch.
  destruct (fetch _); cbn; [rewrite requests_handle_response|]; reflexivity.
Qed.

Lemma fetchWithAuth_requests_inv this method options request :
  requests (fetchWithAuth this method options) = [request] ->
  exists url headers,
    construct_url this (endpoint options) = inr url /\
    build_headers this options = inr headers /\
    request = build_request method options url headers.
Proof.
  destruct (construct_url this (endpoint options)) as [e | url] eqn:Hurl.
  - rewrite (fetchWithAuth_unresolved _ _ _ _ Hurl). discriminate.
  - destruct (build_headers this options) as [e | headers] eqn:Hh.
    + rewrite (fetchWithAuth_unbuilt _ _ _ _ _ Hurl Hh). discriminate.
    + rewrite (fetchWithAuth_requests _ _ _ _ _ Hurl Hh). intros [= <-].
      exists url, headers. auto.
Qed.

(** Every operation is the pipeline followed by what the operation does
    with the result. *)
Lemma call_pipeline op this options :
  call op this options =
  Task_bind (fetchWithAuth this (method_of op) (pipeline_options op options))
            (finish op options).
Proof.
  destruct op; cbn; unfold get, post, patch, delete;
    try (symmetry; apply Task_bind_ret_r); reflexivity.
Qed.

Lemma endpoint_pipeline_options op options :
  endpoint (pipeline_options op options) = endpoint options.
Proof. destruct op; reflexivity. Qed.

Lemma build_headers_pipeline_options op this options :
  build_headers this (pipeline_options op options) = build_headers this options.
Proof. destruct op; reflexivity. Qed.

Lemma call_unresolved op this options e :
  construct_url this (endpoint options) = inl e ->
  call op this options = ([], Rejected e).
Proof.
  intros Hurl. rewrite call_pipeline, (fetchWithAuth_unresolved _ _ _ e).
  - reflexivity.
  - rewrite endpoint_pipeline_options. exact Hurl.
Qed.

Lemma call_unbuilt op this options url e :
  construct_url this (endpoint options) = inr url ->
  build_headers this options = inl e ->
  call op this options = ([], Rejected e).
Proof.
  intros Hurl Hh. rewrite call_pipeline, (fetchWithAuth_unbuilt _ _ _ url e).
  - reflexivity.
  - rewrite endpoint_pipeline_options. exact Hurl.
  - rewrite build_headers_pipeline_options. exact Hh.
Qed.

Lemma call_requests op this options url headers :
  construct_url this (endpoint options) = inr url ->
  build_headers this options = inr headers ->
  requests (call op this options) =
  [build_request (method_of op) (pipeline_options op options) url headers].
Proof.
  intros Hurl Hh.
  rewrite <- endpoint_pipeline_options with (op := op) in Hurl.
  rewrite <- build_headers_pipeline_options with (op := op) in Hh.
  rewrite call_pipeline, requests_bind,
    (fetchWithAuth_requests _ _ _ _ _ Hurl Hh).
  destruct (outcome _); [rewrite requests_finish|]; reflexivity.
Qed.

Lemma call_requests_inv op this options request :
  requests (call op this options) = [request] ->
  exists url headers,
    construct_url this (endpoint options) = inr url /\
    build_headers this options = inr headers /\
    request = build_request (method_of op) (pipeline_options op options)
                url headers.
Proof.
  destruct (construct_url this (endpoint options)) as [e | url] eqn:Hurl.
  - rewrite (call_unresolved _ _ _ _ Hurl). discriminate.
  - destruct (build_headers this options) as [e | headers] eqn:Hh.
    + rewrite (call_unbuilt _ _ _ _ _ Hurl Hh). discriminate.
    + rewrite (call_requests _ _ _ _ _ Hurl Hh). intros [= <-].
      exists url, headers. auto.
Qed.

(** A call whose request the transport answered: the request, then the
    handling of the response, then the operation's own step. *)
Lemma call_answered op this options request response :
  requests (call op this options) = [request] ->
  fetch request = Resolved response ->
  call op this options =
  Task_bind
    (EvFetch request
       :: trace (handle_response (schema (pipeline_options op options)) response),
     outcome (handle_response (schema (pipeline_options op options)) response))
    (finish op options).
Proof.
  intros Hreq Hfetch.
  apply call_requests_inv in Hreq as (url & headers & Hurl & Hh & ->).
  rewrite call_pipeline.
  rewrite <- endpoint_pipeline_options with (op := op) in Hurl.
  rewrite <- build_headers_pipeline_options with (op := op) in Hh.
  rewrite (fetchWithAuth_answered _ _ _ _ _ _ Hurl Hh Hfetch). reflexivity.
Qed.

Lemma call_request_headers op this options request :
  requests (call op this options) = [request] ->
  build_headers this options = inr (req_headers request).
Proof.
  intros Hreq. apply call_requests_inv in Hreq as (url & headers & _ & Hh & ->).
  exact Hh.
Qed.

Lemma outcome_bind {A B} (m : Task A) (k : A -> Task B) :
  outcome (Task_bind m k) =
  match outcome m with
  | Resolved a => outcome (k a)
  | Rejected e => Rejected e
  end.
Proof.
  destruct m as [t [a | e]]; unfold outcome; cbn; [|reflexivity].
  destruct (k a); reflexivity.
Qed.

Lemma token_truthy_nonempty (t : string) : t <> "" -> token_truthy (Some t) = true.
Proof. destruct t; [contradiction | reflexivity]. Qed.

(** What a successful parse of the envelope says of the body. *)
Lemma safeParse_postgrestErrorSchema_Some (body : JSON) (envelope : PostgrestErrorResponse) :
  safeParse_postgrestErrorSchema body = Some envelope ->
  exists props, body = JObj props /\
    JSON_prop props "message" = Some (JStr (message envelope)) /\
    JSON_prop props "details" =
      Some (match details envelope with Some d => JStr d | None => JNull end) /\
    JSON_prop props "hint" =
      Some (match hint envelope with Some h => JStr h | None => JNull end) /\
    JSON_prop props "code" = Some (JStr (code envelope)).
Proof.
  destruct body as [| | | | | props]; try discriminate. cbn.
  destruct (JSON_prop props "message") as [[| | | m | |] |] eqn:Hm;
    try discriminate.
  destruct (JSON_prop props "details") as [[| | | d | |] |] eqn:Hd;
    try discriminate;
    destruct (JSON_prop props "hint") as [[| | | h | |] |] eqn:Hh;
    try discriminate;
    destruct (JSON_prop props "code") as [[| | | c | |] |] eqn:Hc;
    try discriminate;
    cbn; intros [= <-]; exists props; cbn; auto.
Qed.

(** The query of the request the pipeline issues. *)
Lemma build_request_searchParams method options entries url headers :
  params options = Some entries ->
  searchParams (req_url (build_request method options url headers)) =
  searchParams url ++ query_entries entries.
Proof. intros Hp. cbn. rewrite Hp. apply append_params_fold. Qed.

Lemma query_entries_as_claimed (entries : Params) :
  NoDup (map fst entries) -> query_as_claimed entries (query_entries entries).
Proof.
  intros Hnd. split; intros key value Hin Hp.
  - intros Hkey. apply elem_keys in Hkey as [w Hw].
    assert (Hocc : occurrences key (query_entries entries) = 0%nat).
    { rewrite (occurrences_query_entries _ _ _ Hnd Hin), Hp. reflexivity. }
    unfold occurrences in Hocc. apply length_zero_iff_nil in Hocc.
    assert (Hf : In (key, w) (List.filter (fun kv => String.eqb (fst kv) key)
                                           (query_entries entries))).
    { apply filter_In. split; [apply list_elem_of_In, Hw | apply String.eqb_refl]. }
    rewrite Hocc in Hf. destruct Hf.
  - split.
    + rewrite (occurrences_query_entries _ _ _ Hnd Hin), Hp. reflexivity.
    + apply query_entries_elem. exists value; auto.
Qed.

Lemma keys_functional {V} (entries : list (string * V)) key (v w : V) :
  NoDup (map fst entries) -> (key, v) ∈ entries -> (key, w) ∈ entries -> v = w.
Proof.
  induction entries as [| [k x] entries IH]; [intros _ Hin; inversion Hin|].
  cbn [map fst]. intros Hnd Hv Hw. apply NoDup_cons in Hnd as [Hnot Hnd].
  apply elem_of_cons in Hv as [Hv | Hv]; apply elem_of_cons in Hw as [Hw | Hw].
  - congruence.
  - inversion Hv; subst. exfalso; apply Hnot, elem_keys. exists w; exact Hw.
  - inversion Hw; subst. exfalso; apply Hnot, elem_keys. exists v; exact Hv.
  - apply IH; assumption.
Qed.

Lemma handle_response_no_content (s : option Schema) (response : Response) :
  status response = 204 \/ status response = 202 ->
  handle_response s response = ([], Resolved JNull).
Proof.
  intros Hs. unfold handle_response, ok. destruct Hs as [-> | ->]; reflexivity.
Qed.

Lemma validateData_cases (s : Schema) (data : JSON) :
  validateData s data =
  match s with
  | NotStandardSchema =>
      ([], Rejected (JsError "Provided schema is not a valid Standard Schema"))
  | StandardSchema validate =>
      match validate data with
      | ValidationSuccess value => ([EvValidate data], Resolved value)
      | ValidationFailure issues =>
          ([EvValidate data],
           Rejected (JsError ("Schema Validation Error: "
                              +:+ JSON_stringify (JArr issues) 2)))
      end
  end.
Proof.
  destruct s as [| validate]; [reflexivity|].
  unfold validateData. cbn. destruct (validate data); reflexivity.
Qed.

(** A bearer value is left as it is by normalization when the credential
    has no whitespace at its end. *)
Lemma strip_trailing_app (s t : string) :
  strip_trailing t <> "" -> strip_trailing (s +:+ t) = s +:+ strip_trailing t.
Proof.
  intros Ht. induction s as [| c s IH]; [reflexivity|].
  change (strip_trailing (String c s +:+ t))
    with (if is_http_whitespace c && String.eqb (strip_trailing (s +:+ t)) ""
          then "" else String c (strip_trailing (s +:+ t))).
  rewrite IH.
  destruct (String.eqb_spec (s +:+ strip_trailing t) "") as [Hempty | _].
  - exfalso. destruct s; cbn in Hempty; [contradiction | discriminate].
  - rewrite andb_false_r. reflexivity.
Qed.

Lemma normalize_bearer (t : string) :
  t <> "" -> strip_trailing t = t ->
  normalize_value ("Bearer " +:+ t) = "Bearer " +:+ t.
Proof.
  intros Hne Hstrip. unfold normalize_value.
  change (strip_leading ("Bearer " +:+ t)) with ("Bearer " +:+ t).
  rewrite strip_trailing_app by (rewrite Hstrip; exact Hne).
  rewrite Hstrip. reflexivity.
Qed.

(** ** The claims *)

(** C1: constructing a client never throws, whatever the base: the
    constructor stores its arguments and [createPostgrestClient] turns an
    absent or empty base into the empty string.  The failure comes with the
    first call: every operation on a client whose base is empty rejects,
    before any request is made, with an [Error] whose message says that the
    base URL is not defined; a base the host cannot parse fails at the same
    place, with the host's message. *)
Theorem C1_construction_defers_base_failure
    (credential : option string) (op : Operation) (options : RequestOptions) :
  (forall base, constructor base credential =
                {| baseURL := base; defaultToken := credential |}) /\
  createPostgrestClient None credential = constructor (BaseString "") credential /\
  createPostgrestClient (Some (BaseString "")) credential =
    constructor (BaseString "") credential /\
  (forall base, BaseURL_truthy base = true ->
     createPostgrestClient (Some base) credential = constructor base credential) /\
  call op (constructor (BaseString "") credential) options =
    ([], Rejected (JsError ("Failed to construct URL (base: , endpoint: "
                            +:+ endpoint options
                            +:+ "): Base URL is not defined"))) /\
  (forall base msg,
     BaseURL_truthy base = true ->
     URL_new (BaseURL_toString base) None = inl msg ->
     call op (constructor base credential) options =
       ([], Rejected (JsError ("Failed to construct URL (base: "
                               +:+ BaseURL_toString base
                               +:+ ", endpoint: " +:+ endpoint options
                               +:+ "): " +:+ msg)))).
Proof.
  repeat split.
  - intros base Hb. unfold createPostgrestClient. rewrite Hb. reflexivity.
  - apply call_unresolved. reflexivity.
  - intros base msg Hb Hnew. apply call_unresolved.
    unfold construct_url, resolve_url. cbn [baseURL constructor].
    rewrite Hb, Hnew. reflexivity.
Qed.

(** C2 (as amended): for a parameter map with distinct keys handed to the
    pipeline, as [get], [post], [patch] and [delete] hand it the caller's
    map, the request that is issued has as its query the query of the
    resolved URL followed by one entry [key=String(value)] for each key
    whose value is neither [undefined] nor [null], in the order of the map.
    Among the appended entries a key with an [undefined] or [null] value
    does not occur and every other key occurs once; when the resolved URL
    has no query of its own this holds of the whole query. *)
Theorem C2_query_composition this method options entries url headers :
  params options = Some entries ->
  NoDup (map fst entries) ->
  construct_url this (endpoint options) = inr url ->
  build_headers this options = inr headers ->
  exists request,
    requests (fetchWithAuth this method options) = [request] /\
    searchParams (req_url request) = searchParams url ++ query_entries entries /\
    query_as_claimed entries (query_entries entries) /\
    (searchParams url = [] ->
     query_as_claimed entries (searchParams (req_url request))) /\
    (forall op, op <> OpGetFirst -> method = method_of op ->
       requests (call op this options) = [request]).
Proof.
  intros Hp Hnd Hurl Hh. eexists.
  split; [apply (fetchWithAuth_requests _ _ _ _ _ Hurl Hh)|].
  rewrite (build_request_searchParams _ _ _ _ _ Hp).
  split; [reflexivity|]. split; [apply query_entries_as_claimed, Hnd|].
  split.
  - intros ->. apply query_entries_as_claimed, Hnd.
  - intros op Hop ->. rewrite (call_requests op _ _ _ _ Hurl Hh).
    destruct op; try contradiction; reflexivity.
Qed.

(** C3 (as amended): on the request a call issues, [token: null] means
    that the client adds no [Authorization] header, also when it has a
    default credential: the request has under [Authorization] what the
    caller's passthrough headers hold, as the host stores it, and nothing
    when they hold nothing.  When [token] is [undefined] the default
    credential is used.  A non-empty effective credential gives the header
    [Authorization: Bearer <credential>], the value normalized by the host,
    so exactly that when the credential has no whitespace at its end.  A
    credential whose header value the host refuses makes the call reject
    with the host's [TypeError], without a request; otherwise, with valid
    passthrough headers and a URL that resolves, the request is issued. *)
Theorem C3_authorization_header this method options :
  (forall request,
     requests (fetchWithAuth this method options) = [request] ->
     (token options = Some None ->
      Headers_get (req_headers request) "Authorization" =
      caller_header (default [] (headers options)) "Authorization") /\
     (token options = None ->
      requests (fetchWithAuth this method
                  (with_token options (Some (defaultToken this))))
      = [request]) /\
     (forall t, effectiveToken this (token options) = Some t -> t <> "" ->
      Headers_get (req_headers request) "Authorization"
      = Some (normalize_value ("Bearer " +:+ t)) /\
      (strip_trailing t = t ->
       Headers_get (req_headers request) "Authorization"
       = Some ("Bearer " +:+ t)))) /\
  (forall t url,
     effectiveToken this (token options) = Some t -> t <> "" ->
     valid_value (normalize_value ("Bearer " +:+ t)) = false ->
     construct_url this (endpoint options) = inr url ->
     exists msg,
       fetchWithAuth this method options
       = ([], Rejected (HostError "TypeError" msg))) /\
  (forall url headers0,
     construct_url this (endpoint options) = inr url ->
     Headers_new (default [] (headers options)) = inr headers0 ->
     (token_truthy (effectiveToken this (token options)) = true ->
      valid_value
        (normalize_value
           ("Bearer " +:+ default "" (effectiveToken this (token options))))
      = true) ->
     exists request, requests (fetchWithAuth this method options) = [request]).
Proof.
  split; [|split].
  - intros request Hreq.
    apply fetchWithAuth_requests_inv in Hreq as (url & headers & Hurl & Hh & ->).
    cbn [req_headers build_request].
    rewrite (build_headers_authorization _ _ _ Hh). split; [|split].
    + intros ->. reflexivity.
    + intros Htok. apply (fetchWithAuth_requests this method
                            (with_token options (Some (defaultToken this)))
                            url headers Hurl).
      rewrite <- Hh. unfold build_headers. cbn. rewrite Htok. reflexivity.
    + intros t -> Ht. rewrite (token_truthy_nonempty _ Ht). cbn [default].
      split; [reflexivity|]. intros Hstrip.
      exact (f_equal Some (normalize_bearer _ Ht Hstrip)).
  - intros t url Heff Ht Hinvalid Hurl.
    destruct (build_headers this options) as [e | headers] eqn:Hh.
    + destruct (build_headers_inl _ _ _ Hh) as [msg ->]. exists msg.
      apply (fetchWithAuth_unbuilt _ _ _ _ _ Hurl Hh).
    + exfalso.
      destruct (proj1 (build_headers_succeeds this options)
                  (ex_intro _ headers Hh)) as [_ Hvalid].
      rewrite Heff in Hvalid.
      specialize (Hvalid (token_truthy_nonempty _ Ht)).
      change (default "" (Some t)) with t in Hvalid. congruence.
  - intros url headers0 Hurl Hnew Hvalid.
    destruct (proj2 (build_headers_succeeds this options)
                (conj (ex_intro _ headers0 Hnew) Hvalid)) as [headers Hh].
    eexists. apply (fetchWithAuth_requests _ _ _ _ _ Hurl Hh).
Qed.

(** C4: when the response to a call has a status outside 200-299 and a
    JSON body that matches the error envelope, the call rejects with a
    [PostgrestClientError] whose status is the status of the response and
    whose message, details, hint and code are those of the body; and a
    [PostgrestClientError] made from any status and envelope gives back
    that status and the fields of that envelope. *)
Theorem C4_client_error_mirrors_response
    op this options request response body envelope :
  requests (call op this options) = [request] ->
  fetch request = Resolved response ->
  ok response = false ->
  json response = inr body ->
  safeParse_postgrestErrorSchema body = Some envelope ->
  (exists e props,
     outcome (call op this options) = Rejected (ClientError e) /\
     e = new_PostgrestClientError (status response) envelope /\
     body = JObj props /\
     error_status e = status response /\
     JSON_prop props "message" = Some (JStr (error_message e)) /\
     JSON_prop props "details" =
       Some (match error_details e with Some d => JStr d | None => JNull end) /\
     JSON_prop props "hint" =
       Some (match error_hint e with Some h => JStr h | None => JNull end) /\
     JSON_prop props "code" = Some (JStr (error_code e)) /\
     error_type e = POSTGREST_ERROR_TYPE) /\
  (forall S E,
     error_status (new_PostgrestClientError S E) = S /\
     error_message (new_PostgrestClientError S E) = message E /\
     error_details (new_PostgrestClientError S E) = details E /\
     error_hint (new_PostgrestClientError S E) = hint E /\
     error_code (new_PostgrestClientError S E) = code E).
Proof.
  intros Hreq Hfetch Hok Hjson Hparse. split; [|intros S E; repeat split].
  destruct (safeParse_postgrestErrorSchema_Some _ _ Hparse)
    as (props & -> & Hm & Hd & Hh & Hc).
  exists (new_PostgrestClientError (status response) envelope), props.
  repeat split; try assumption.
  rewrite (call_answered _ _ _ _ _ Hreq Hfetch), outcome_bind.
  unfold handle_response, reject_response, response_json.
  rewrite Hok, Hjson. cbn -[safeParse_postgrestErrorSchema].
  rewrite Hparse. reflexivity.
Qed.

(** C5: [getFirst] sets [limit] to ["1"] in the caller's parameter map after
    the caller's entries, so a [limit] of the caller is overwritten.  The
    request it issues is a [GET] whose query has [limit=1], the only
    [limit] among the entries the pipeline appends, and every other
    parameter of the caller that has a value.  The request is issued
    whenever the URL resolves and the host accepts the headers; headers the
    host refuses make [getFirst] reject with the host's error, without a
    request. *)
Theorem C5_getFirst_merges_limit this options url :
  NoDup (map fst (default [] (params options))) ->
  construct_url this (endpoint options) = inr url ->
  (forall e, build_headers this options = inl e ->
     getFirst this options = ([], Rejected e)) /\
  (forall headers, build_headers this options = inr headers ->
   exists request,
    requests (getFirst this options) = [request] /\
    req_method request = "GET" /\
    searchParams (req_url request) =
      searchParams url
      ++ query_entries (Params_set (default [] (params options)) "limit" (PStr "1")) /\
    ("limit", "1") ∈ searchParams (req_url request) /\
    occurrences "limit"
      (query_entries (Params_set (default [] (params options)) "limit" (PStr "1")))
      = 1%nat /\
    (forall value,
       ("limit", value)
         ∈ query_entries (Params_set (default [] (params options)) "limit" (PStr "1")) ->
       value = "1") /\
    (forall key value,
       (key, value) ∈ default [] (params options) -> key <> "limit" ->
       is_present value = true ->
       (key, String_of value) ∈ searchParams (req_url request))).
Proof.
  intros Hnd Hurl.
  split; [intros e Hh; apply (call_unbuilt OpGetFirst _ _ _ _ Hurl Hh)|].
  intros headers Hh. eexists.
  split; [apply (call_requests OpGetFirst _ _ _ _ Hurl Hh)|].
  split; [reflexivity|].
  rewrite (build_request_searchParams _ _
             (Params_set (default [] (params options)) "limit" (PStr "1")))
    by reflexivity.
  pose proof (Params_set_elem (default [] (params options)) "limit" (PStr "1"))
    as Hlimit.
  pose proof (Params_set_NoDup _ "limit" (PStr "1") Hnd) as Hnd'.
  split; [reflexivity|]. split; [|split; [|split]].
  - apply elem_of_app; right. apply query_entries_elem.
    exists (PStr "1"); auto.
  - rewrite (occurrences_query_entries _ _ _ Hnd' Hlimit). reflexivity.
  - intros value Hin. apply query_entries_elem in Hin as (v & Hin & _ & ->).
    rewrite (keys_functional _ _ _ _ Hnd' Hin Hlimit). reflexivity.
  - intros key value Hin Hne Hp. apply elem_of_app; right.
    apply query_entries_elem. exists value. split; [|auto].
    apply Params_set_other; assumption.
Qed.

(** C6: when the pipeline result of a [getFirst] call is an array with a
    first element, [getFirst] resolves to that element itself when there is
    no schema, and otherwise settles as the validation of that element by
    the caller's schema: it resolves to the validated value when the
    validation succeeds, and rejects when the schema reports issues or is
    not a Standard Schema; when the result is the empty array or is not an
    array, [getFirst] rejects with the error "No data found". *)
Theorem C6_getFirst_unwraps this options data :
  outcome (fetchWithAuth this "GET" (getFirst_options options)) = Resolved data ->
  (forall first others, data = JArr (first :: others) ->
     (schema options = None ->
      outcome (getFirst this options) = Resolved first) /\
     (forall s, schema options = Some s ->
      outcome (getFirst this options) = outcome (validateData s first)) /\
     (forall validate value,
        schema options = Some (StandardSchema validate) ->
        validate first = ValidationSuccess value ->
        outcome (getFirst this options) = Resolved value) /\
     (forall validate issues,
        schema options = Some (StandardSchema validate) ->
        validate first = ValidationFailure issues ->
        outcome (getFirst this options)
        = Rejected (JsError ("Schema Validation Error: "
                             +:+ JSON_stringify (JArr issues) 2))) /\
     (schema options = Some NotStandardSchema ->
      outcome (getFirst this options)
      = Rejected (JsError "Provided schema is not a valid Standard Schema"))) /\
  ((data = JArr [] \/ isArray data = false) ->
   outcome (getFirst this options) = Rejected (JsError "No data found")).
Proof.
  intros Hdata. unfold getFirst, mbind, Task_mbind.
  rewrite outcome_bind, Hdata. split.
  - intros first others ->. cbn. repeat split.
    + intros ->. reflexivity.
    + intros s ->. reflexivity.
    + intros validate value -> Hv. rewrite validateData_cases, Hv.
      reflexivity.
    + intros validate issues -> Hv. rewrite validateData_cases, Hv.
      reflexivity.
    + intros ->. reflexivity.
  - intros [-> | Harr]; [reflexivity|].
    destruct data; try reflexivity. discriminate.
Qed.

(** C7: when the response has status 204 or 202 the pipeline resolves to
    [null] right after the request: the body is not read as JSON, whatever
    it holds, and no schema is called; so do [get], [post], [patch] and
    [delete], which pass their options to the pipeline. *)
Theorem C7_no_content_resolves_null this method options request response :
  requests (fetchWithAuth this method options) = [request] ->
  fetch request = Resolved response ->
  status response = 204 \/ status response = 202 ->
  fetchWithAuth this method options = ([EvFetch request], Resolved JNull) /\
  (EvJson ∉ trace (fetchWithAuth this method options)) /\
  (forall value, EvValidate value ∉ trace (fetchWithAuth this method options)) /\
  (forall op, op <> OpGetFirst -> method = method_of op ->
     call op this options = ([EvFetch request], Resolved JNull)).
Proof.
  intros Hreq Hfetch Hs.
  apply fetchWithAuth_requests_inv in Hreq as (url & headers & Hurl & Hh & ->).
  assert (Hrun : fetchWithAuth this method options =
                 ([EvFetch (build_request method options url headers)],
                  Resolved JNull)).
  { rewrite (fetchWithAuth_answered _ _ _ _ _ _ Hurl Hh Hfetch).
    rewrite (handle_response_no_content _ _ Hs). reflexivity. }
  rewrite Hrun. repeat split.
  - cbn. intros Hin. apply list_elem_of_singleton in Hin. discriminate.
  - cbn. intros value Hin. apply list_elem_of_singleton in Hin. discriminate.
  - intros op Hop ->. destruct op; try contradiction; exact Hrun.
Qed.

(** C8: when the response to a call has a status outside 200-299 and its
    body cannot be read as JSON, the call rejects with an [Error] whose
    message gives the status and says the error response could not be
    parsed; when the body is JSON that does not match the error envelope,
    the mismatch is logged and the call rejects with an [Error], not a
    [PostgrestClientError], whose message says the error format is invalid
    and gives the status. *)
Theorem C8_unreadable_error_body op this options request response :
  requests (call op this options) = [request] ->
  fetch request = Resolved response ->
  ok response = false ->
  (forall msg, json response = inl msg ->
     call op this options =
     ([EvFetch request; EvJson],
      Rejected (JsError ("HTTP Error " +:+ pretty (status response)
                         +:+ ": Failed to parse JSON error response")))) /\
  (forall body, json response = inr body ->
     safeParse_postgrestErrorSchema body = None ->
     call op this options =
     ([EvFetch request; EvJson; EvConsoleError "PostgREST Error Parsing Failed:"],
      Rejected (JsError ("Internal Client Error: Invalid error format from server ("
                         +:+ pretty (status response) +:+ ")"))) /\
     forall e, outcome (call op this options) <> Rejected (ClientError e)).
Proof.
  intros Hreq Hfetch Hok.
  rewrite (call_answered _ _ _ _ _ Hreq Hfetch).
  unfold handle_response, reject_response, response_json. rewrite Hok.
  split.
  - intros msg ->. reflexivity.
  - intros body -> Hparse. cbn -[safeParse_postgrestErrorSchema].
    rewrite Hparse. split; [reflexivity | discriminate].
Qed.

(** C9 (as amended): [setToken] replaces the default credential and nothing
    else: the base is the one stored before.  A later call of any operation
    that leaves [token] undefined uses the new credential: the request it
    issues has [Authorization: Bearer <credential>], the value normalized by
    the host, when the new credential is a non-empty string; when it is
    [null] the client adds no [Authorization] header, and the request has
    under that name what the caller's passthrough headers hold.  A new
    credential whose header value the host refuses makes the call reject
    with the host's [TypeError], without a request; otherwise, with valid
    passthrough headers and a URL that resolves, the request is issued. *)
Theorem C9_setToken_replaces_credential this credential :
  baseURL (setToken this credential) = baseURL this /\
  defaultToken (setToken this credential) = credential /\
  (forall op options request,
     token options = None ->
     requests (call op (setToken this credential) options) = [request] ->
     (exists url, construct_url this (endpoint options) = inr url) /\
     (forall t, credential = Some t -> t <> "" ->
        Headers_get (req_headers request) "Authorization"
        = Some (normalize_value ("Bearer " +:+ t)) /\
        (strip_trailing t = t ->
         Headers_get (req_headers request) "Authorization"
         = Some ("Bearer " +:+ t))) /\
     (credential = None ->
        Headers_get (req_headers request) "Authorization"
        = caller_header (default [] (headers options)) "Authorization")) /\
  (forall op options t url,
     token options = None -> credential = Some t -> t <> "" ->
     valid_value (normalize_value ("Bearer " +:+ t)) = false ->
     construct_url this (endpoint options) = inr url ->
     exists msg,
       call op (setToken this credential) options
       = ([], Rejected (HostError "TypeError" msg))) /\
  (forall op options url headers0,
     token options = None ->
     construct_url this (endpoint options) = inr url ->
     Headers_new (default [] (headers options)) = inr headers0 ->
     (token_truthy credential = true ->
      valid_value (normalize_value ("Bearer " +:+ default "" credential))
      = true) ->
     exists request,
       requests (call op (setToken this credential) options) = [request]).
Proof.
  split; [reflexivity|]. split; [reflexivity|]. split; [|split].
  - intros op options request Htok Hreq.
    apply call_requests_inv in Hreq as (url & headers & Hurl & Hh & ->).
    split; [exists url; exact Hurl|].
    cbn [req_headers build_request].
    rewrite (build_headers_authorization _ _ _ Hh), Htok.
    cbn [effectiveToken setToken defaultToken]. split.
    + intros t -> Ht. rewrite (token_truthy_nonempty _ Ht). cbn [default].
      split; [reflexivity|]. intros Hstrip.
      exact (f_equal Some (normalize_bearer _ Ht Hstrip)).
    + intros ->. reflexivity.
  - intros op options t url Htok -> Ht Hinvalid Hurl.
    destruct (build_headers (setToken this (Some t)) options)
      as [e | headers] eqn:Hh.
    + destruct (build_headers_inl _ _ _ Hh) as [msg ->]. exists msg.
      apply (call_unbuilt op (setToken this (Some t)) options url _ Hurl Hh).
    + exfalso.
      destruct (proj1 (build_headers_succeeds (setToken this (Some t)) options)
                  (ex_intro _ headers Hh)) as [_ Hvalid].
      rewrite Htok in Hvalid. cbn [effectiveToken setToken defaultToken] in Hvalid.
      specialize (Hvalid (token_truthy_nonempty _ Ht)).
      change (default "" (Some t)) with t in Hvalid. congruence.
  - intros op options url headers0 Htok Hurl Hnew Hvalid.
    destruct (proj2 (build_headers_succeeds (setToken this credential) options))
      as [headers Hh].
    { split; [exists headers0; exact Hnew|]. rewrite Htok. exact Hvalid. }
    eexists.
    apply (call_requests op (setToken this credential) options url headers
             Hurl Hh).
Qed.

(** C10: when the [GET] of a [getFirst] call is answered with status 204 or
    202, [getFirst] rejects with the error "No data found": the pipeline
    gives [null], which is not an array, and [getFirst] does not resolve to
    [null]. *)
Theorem C10_getFirst_no_content_rejects this options request response :
  requests (getFirst this options) = [request] ->
  fetch request = Resolved response ->
  status response = 204 \/ status response = 202 ->
  getFirst this options = ([EvFetch request], Rejected (JsError "No data found")) /\
  outcome (fetchWithAuth this "GET" (getFirst_options options)) = Resolved JNull /\
  outcome (getFirst this options) <> Resolved JNull.
Proof.
  intros Hreq Hfetch Hs.
  pose proof (call_requests_inv OpGetFirst _ _ _ Hreq)
    as (url & headers & Hurl & Hh & Heq).
  pose proof (call_answered OpGetFirst _ _ _ _ Hreq Hfetch) as Hcall.
  rewrite (handle_response_no_content _ _ Hs) in Hcall.
  change (call OpGetFirst this options) with (getFirst this options) in Hcall.
  rewrite Hcall. split; [reflexivity|]. split; [|discriminate].
  subst request.
  rewrite (fetchWithAuth_answered this "GET" (getFirst_options options)
             url headers response Hurl Hh Hfetch).
  rewrite (handle_response_no_content _ _ Hs). reflexivity.
Qed.

End Properties.

(** * Further properties of the client *)

Section Further.
Context `{Platform}.

(** ** What the handling of a response does *)

Lemma handle_response_error (s : option Schema) (response : Response) :
  ok response = false -> handle_response s response = reject_response response.
Proof. intros Hok. unfold handle_response. rewrite Hok. reflexivity. Qed.

Lemma reject_response_cases (response : Response) :
  reject_response response =
  match json response with
  | inl _ =>
      ([EvJson],
       Rejected (JsError ("HTTP Error " +:+ pretty (status response)
                          +:+ ": Failed to parse JSON error response")))
  | inr body =>
      match safeParse_postgrestErrorSchema body with
      | None =>
          ([EvJson; EvConsoleError "PostgREST Error Parsing Failed:"],
           Rejected (JsError
             ("Internal Client Error: Invalid error format from server ("
              +:+ pretty (status response) +:+ ")")))
      | Some output =>
          ([EvJson],
           Rejected (ClientError
                       (new_PostgrestClientError (status response) output)))
      end
  end.
Proof.
  unfold reject_response, response_json.
  destruct (json response) as [msg | body]; [reflexivity|].
  cbn -[safeParse_postgrestErrorSchema].
  destruct (safeParse_postgrestErrorSchema body); reflexivity.
Qed.

Lemma handle_response_success (s : option Schema) (response : Response) :
  ok response = true -> status response <> 204 -> status response <> 202 ->
  handle_response s response =
  match json response with
  | inl msg => ([EvJson], Rejected (HostError "SyntaxError" msg))
  | inr body =>
      match s with
      | Some s' => (EvJson :: trace (validateData s' body),
                    outcome (validateData s' body))
      | None => ([EvJson], Resolved body)
      end
  end.
Proof.
  intros Hok H204 H202. unfold handle_response, response_json. rewrite Hok.
  apply N.eqb_neq in H204, H202. rewrite H204, H202. cbn.
  destruct (json response) as [msg | body]; [reflexivity|].
  destruct s as [s'|]; [|reflexivity].
  unfold mbind, Task_mbind, Task_bind.
  destruct (validateData s' body); reflexivity.
Qed.

Lemma validateData_rejection (s : Schema) (data : JSON) (e : Thrown) :
  outcome (validateData s data) = Rejected e -> exists msg, e = JsError msg.
Proof.
  rewrite validateData_cases. destruct s as [| validate].
  - intros [= <-]. eexists; reflexivity.
  - destruct (validate data); [discriminate|]. intros [= <-].
    eexists; reflexivity.
Qed.

Lemma validateData_trace (s : Schema) (data : JSON) (ev : Event) :
  ev ∈ trace (validateData s data) -> ev = EvValidate data.
Proof.
  rewrite validateData_cases. destruct s as [| validate].
  - intros Hin; inversion Hin.
  - destruct (validate data); cbn; intros Hin;
      apply list_elem_of_singleton in Hin; exact Hin.
Qed.

Lemma call_unanswered op this options request e :
  requests (call op this options) = [request] ->
  fetch request = Rejected e ->
  call op this options = ([EvFetch request], Rejected e).
Proof.
  intros Hreq Hfetch.
  apply call_requests_inv in Hreq as (url & headers & Hurl & Hh & ->).
  rewrite call_pipeline.
  rewrite <- endpoint_pipeline_options with (op := op) in Hurl.
  rewrite <- build_headers_pipeline_options with (op := op) in Hh.
  unfold fetchWithAuth. rewrite Hurl, Hh.
  unfold mbind, Task_mbind, Task_bind, await_fetch. rewrite Hfetch.
  reflexivity.
Qed.

Lemma call_rejected_response op this options request response t e :
  requests (call op this options) = [request] ->
  fetch request = Resolved response ->
  handle_response (schema (pipeline_options op options)) response
    = (t, Rejected e) ->
  call op this options = (EvFetch request :: t, Rejected e).
Proof.
  intros Hreq Hfetch Hh. rewrite (call_answered _ _ _ _ _ Hreq Hfetch), Hh.
  reflexivity.
Qed.

(** ** Schema validation *)

(** X1: [validateData] resolves exactly when the schema is a Standard Schema
    whose [validate] reports no issues, and then to the validated value.
    Any array of issues rejects, the empty array too, since the code tests
    the array and not its length; an object without ["~standard"] rejects
    before anything is validated. *)
Theorem validateData_resolves_iff (s : Schema) (data : JSON) :
  (forall value,
     outcome (validateData s data) = Resolved value <->
     exists validate, s = StandardSchema validate /\
                      validate data = ValidationSuccess value) /\
  (forall validate issues,
     s = StandardSchema validate -> validate data = ValidationFailure issues ->
     validateData s data =
     ([EvValidate data],
      Rejected (JsError ("Schema Validation Error: "
                         +:+ JSON_stringify (JArr issues) 2)))) /\
  (s = NotStandardSchema ->
   validateData s data =
   ([], Rejected (JsError "Provided schema is not a valid Standard Schema"))).
Proof.
  rewrite validateData_cases. split; [|split].
  - intros value. split.
    + destruct s as [| validate]; [discriminate|].
      destruct (validate data) as [v | issues] eqn:Hv; [|discriminate].
      intros [= <-]. exists validate; auto.
    + intros (validate & -> & Hv). rewrite Hv. reflexivity.
  - intros validate issues -> Hv. rewrite Hv. reflexivity.
  - intros ->. reflexivity.
Qed.

(** ** The success path *)

(** X2: when a call of [get], [post], [patch] or [delete] is answered with a
    status in 200-299 other than 204 and 202 and a JSON body, the call
    resolves to the body as parsed when no schema was given, and settles as
    the validation of the whole body when one was; a rejection on this path
    is never a [PostgrestClientError]. *)
Theorem success_body_is_result op this options request response body :
  op <> OpGetFirst ->
  requests (call op this options) = [request] ->
  fetch request = Resolved response ->
  ok response = true -> status response <> 204 -> status response <> 202 ->
  json response = inr body ->
  (schema options = None ->
   call op this options = ([EvFetch request; EvJson], Resolved body)) /\
  (forall s, schema options = Some s ->
   call op this options =
   (EvFetch request :: EvJson :: trace (validateData s body),
    outcome (validateData s body))) /\
  (forall e, outcome (call op this options) <> Rejected (ClientError e)).
Proof.
  intros Hop Hreq Hfetch Hok H204 H202 Hjson.
  assert (Hsame : pipeline_options op options = options)
    by (destruct op; try reflexivity; contradiction).
  assert (Hfin : forall m : Task JSON, Task_bind m (finish op options) = m).
  { intros m. destruct op; try contradiction; apply Task_bind_ret_r. }
  rewrite (call_answered _ _ _ _ _ Hreq Hfetch), Hfin, Hsame.
  rewrite (handle_response_success _ _ Hok H204 H202), Hjson.
  split; [|split].
  - intros ->. reflexivity.
  - intros s ->. reflexivity.
  - intros e. destruct (schema options) as [s|]; cbn; [|discriminate].
    intros He. apply validateData_rejection in He as [msg [=]].
Qed.

(** X3: when a call is answered with a status in 200-299 other than 204 and
    202 and a body that is not JSON, the call rejects with the
    [SyntaxError] of [response.json()] as the host raised it: on this path
    the error is not caught and given another message, and nothing is
    validated. *)
Theorem success_parse_failure_propagates op this options request response msg :
  requests (call op this options) = [request] ->
  fetch request = Resolved response ->
  ok response = true -> status response <> 204 -> status response <> 202 ->
  json response = inl msg ->
  call op this options =
  ([EvFetch request; EvJson], Rejected (HostError "SyntaxError" msg)).
Proof.
  intros Hreq Hfetch Hok H204 H202 Hjson.
  apply (call_rejected_response _ _ _ _ _ _ _ Hreq Hfetch).
  rewrite (handle_response_success _ _ Hok H204 H202), Hjson. reflexivity.
Qed.

(** X4: when [fetch] itself rejects, every operation rejects with the same
    error, untouched, right after the request: no body is read, nothing is
    validated or logged. *)
Theorem transport_failure_propagates op this options request e :
  requests (call op this options) = [request] ->
  fetch request = Rejected e ->
  call op this options = ([EvFetch request], Rejected e).
Proof. apply call_unanswered. Qed.

(** ** The error path *)

(** X5: a response with a status outside 200-299 never resolves, whatever
    its body and whatever the schema: the call rejects with an [Error] or
    with a [PostgrestClientError] that carries the status, never with an
    error of the host; the body is read once and the caller's schema is not
    called. *)
Theorem error_status_never_resolves op this options request response :
  requests (call op this options) = [request] ->
  fetch request = Resolved response ->
  ok response = false ->
  (exists e t,
     call op this options = (EvFetch request :: EvJson :: t, Rejected e) /\
     ((exists msg, e = JsError msg) \/
      (exists c, e = ClientError c /\ error_status c = status response)) /\
     (t = [] \/ t = [EvConsoleError "PostgREST Error Parsing Failed:"])) /\
  (forall value, EvValidate value ∉ trace (call op this options)).
Proof.
  intros Hreq Hfetch Hok.
  assert (Hrun : exists e t,
    call op this options = (EvFetch request :: EvJson :: t, Rejected e) /\
    ((exists msg, e = JsError msg) \/
     (exists c, e = ClientError c /\ error_status c = status response)) /\
    (t = [] \/ t = [EvConsoleError "PostgREST Error Parsing Failed:"])).
  { pose proof (handle_response_error (schema (pipeline_options op options))
                  response Hok) as Hh.
    rewrite reject_response_cases in Hh.
    destruct (json response) as [msg | body].
    - do 2 eexists. split;
        [apply (call_rejected_response _ _ _ _ _ _ _ Hreq Hfetch Hh)|].
      split; [left; eexists; reflexivity | left; reflexivity].
    - destruct (safeParse_postgrestErrorSchema body) as [output|].
      + do 2 eexists. split;
          [apply (call_rejected_response _ _ _ _ _ _ _ Hreq Hfetch Hh)|].
        split; [right; eexists; split; reflexivity | left; reflexivity].
      + do 2 eexists. split;
          [apply (call_rejected_response _ _ _ _ _ _ _ Hreq Hfetch Hh)|].
        split; [left; eexists; reflexivity | right; reflexivity]. }
  split; [exact Hrun|].
  destruct Hrun as (e & t & -> & _ & Ht). intros value. cbn.
  destruct Ht as [-> | ->]; intros Hin;
    repeat (apply elem_of_cons in Hin as [Hin | Hin]; [discriminate|]);
    inversion Hin.
Qed.

Lemma trace_bind {A B} (m : Task A) (k : A -> Task B) :
  trace (Task_bind m k) =
  trace m ++ match outcome m with
             | Resolved a => trace (k a)
             | Rejected _ => []
             end.
Proof.
  destruct m as [t [a | e]]; unfold trace, outcome; cbn.
  - destruct (k a); reflexivity.
  - rewrite app_nil_r; reflexivity.
Qed.

Lemma finish_trace op options data ev :
  ev ∈ trace (finish op options data) -> exists value, ev = EvValidate value.
Proof.
  destruct op; cbn; try (intros Hin; inversion Hin; fail).
  unfold unwrap_first.
  destruct data as [| | | | [| first others] |];
    try (intros Hin; inversion Hin; fail).
  destruct (schema options) as [s|]; [|intros Hin; inversion Hin].
  intros Hin. apply validateData_trace in Hin. eexists; exact Hin.
Qed.

Lemma handle_response_ok_trace (s : option Schema) (response : Response) ev :
  ok response = true ->
  ev ∈ trace (handle_response s response) ->
  ev = EvJson \/ exists value, ev = EvValidate value.
Proof.
  intros Hok. unfold handle_response. rewrite Hok. cbn [negb].
  destruct (_ || _); [intros Hin; inversion Hin|].
  unfold mbind, Task_mbind. rewrite trace_bind. unfold response_json.
  destruct (json response) as [msg | body]; cbn.
  - intros Hin. apply list_elem_of_singleton in Hin. left; exact Hin.
  - intros Hin. apply elem_of_cons in Hin as [-> | Hin]; [left; reflexivity|].
    right. destruct s as [s'|]; [|inversion Hin].
    apply validateData_trace in Hin. eexists; exact Hin.
Qed.

(** X6: the client writes to the console in one case only.  A call that
    was answered logs "PostgREST Error Parsing Failed:" exactly when the
    status is outside 200-299 and the body is JSON that does not match the
    error envelope; a success, a well-formed error and a body that is not
    JSON log nothing. *)
Theorem console_error_iff op this options request response :
  requests (call op this options) = [request] ->
  fetch request = Resolved response ->
  ((exists label, EvConsoleError label ∈ trace (call op this options)) <->
   ok response = false /\
   exists body, json response = inr body /\
                safeParse_postgrestErrorSchema body = None).
Proof.
  intros Hreq Hfetch. destruct (ok response) eqn:Hok.
  - split; [|intros [[=] _]]. intros [label Hin]. exfalso.
    rewrite (call_answered _ _ _ _ _ Hreq Hfetch), trace_bind in Hin.
    cbn [trace outcome fst snd] in Hin.
    change (EvConsoleError label
              ∈ (EvFetch request
                   :: trace (handle_response
                               (schema (pipeline_options op options)) response))
                ++ match outcome (handle_response
                                    (schema (pipeline_options op options))
                                    response) with
                   | Resolved a => trace (finish op options a)
                   | Rejected _ => []
                   end) in Hin.
    apply elem_of_app in Hin as [Hin | Hin].
    + apply elem_of_cons in Hin as [[=] | Hin].
      apply (handle_response_ok_trace _ _ _ Hok) in Hin as [[=] | [v [=]]].
    + destruct (outcome _); [|inversion Hin].
      apply finish_trace in Hin as [v [=]].
  - pose proof (handle_response_error (schema (pipeline_options op options))
                  response Hok) as Hh.
    rewrite reject_response_cases in Hh.
    destruct (json response) as [msg | body].
    + rewrite (call_rejected_response _ _ _ _ _ _ _ Hreq Hfetch Hh).
      split.
      * intros [label Hin]. cbn in Hin.
        repeat (apply elem_of_cons in Hin as [[=] | Hin]). inversion Hin.
      * intros [_ (body & [=] & _)].
    + destruct (safeParse_postgrestErrorSchema body) as [output|] eqn:Hparse;
        rewrite (call_rejected_response _ _ _ _ _ _ _ Hreq Hfetch Hh).
      * split.
        -- intros [label Hin]. cbn in Hin.
           repeat (apply elem_of_cons in Hin as [[=] | Hin]). inversion Hin.
        -- intros [_ (body' & [= <-] & Hnone)]. congruence.
      * split; [intros _; split; [reflexivity | exists body; auto]|].
        intros _. eexists. cbn. right; right; left.
Qed.

(** ** Requests *)


(** ** Headers *)

Lemma Headers_get_lower (h : Headers) (name name' : string) :
  lower name = lower name' -> Headers_get h name = Headers_get h name'.
Proof. intros Heq. unfold Headers_get. rewrite Heq. reflexivity. Qed.

(** What the headers built hold under a name other than [Authorization]:
    the fixed value for [Content-Type] and [Accept], what the caller gave
    for any other name. *)
Lemma build_headers_get this options (h : Headers) (name : string) :
  build_headers this options = inr h ->
  lower name <> "authorization" ->
  Headers_get h name =
  if String.eqb (lower name) "accept" || String.eqb (lower name) "content-type"
  then Some "application/json"
  else caller_header (default [] (headers options)) name.
Proof.
  intros Hh Hauth. apply build_headers_inr in Hh
    as (headers0 & headers1 & headers2 & Hs0 & Hs1 & Hs2 & Hs3).
  destruct (String.eqb_spec (lower name) "accept") as [Ha | Ha].
  - rewrite (Headers_get_lower h name "Accept") by exact Ha.
    apply (Headers_get_set _ _ _ _ Hs3).
  - rewrite (Headers_get_set_other _ _ _ _ _ Hs3)
      by (intros Heq; apply Ha; rewrite <- Heq; reflexivity).
    destruct (String.eqb_spec (lower name) "content-type") as [Hc | Hc].
    + rewrite (Headers_get_lower headers2 name "Content-Type") by exact Hc.
      apply (Headers_get_set _ _ _ _ Hs2).
    + rewrite (Headers_get_set_other _ _ _ _ _ Hs2)
        by (intros Heq; apply Hc; rewrite <- Heq; reflexivity).
      cbn [orb].
      destruct (token_truthy _).
      * rewrite (Headers_get_set_other _ _ _ _ _ Hs1)
          by (intros Heq; apply Hauth; rewrite <- Heq; reflexivity).
        apply Headers_new_get, Hs0.
      * injection Hs1 as <-. apply Headers_new_get, Hs0.
Qed.

(** X8: every request carries [Content-Type: application/json] and
    [Accept: application/json], each with that single value, whatever the
    caller put under these names, in any letter case, in the passthrough
    headers. *)
Theorem content_headers_forced op this options request :
  requests (call op this options) = [request] ->
  Headers_get (req_headers request) "Content-Type" = Some "application/json" /\
  Headers_get (req_headers request) "Accept" = Some "application/json".
Proof.
  intros Hreq. pose proof (call_request_headers _ _ _ _ Hreq) as Hh.
  split; rewrite (build_headers_get _ _ _ _ Hh) by (cbn; discriminate);
    reflexivity.
Qed.

(** X9: on the request a call issues, a header whose name is not
    [Authorization], [Content-Type] or [Accept] is the caller's: it has the
    values the caller gave under that name, in any letter case, each with
    the whitespace around it removed, joined by ", " when there are
    several, and is absent when the caller gave none. *)
Theorem passthrough_headers_kept op this options request (name : string) :
  requests (call op this options) = [request] ->
  lower name <> "authorization" ->
  lower name <> "content-type" ->
  lower name <> "accept" ->
  Headers_get (req_headers request) name =
  caller_header (default [] (headers options)) name.
Proof.
  intros Hreq Hauth Hct Hacc.
  pose proof (call_request_headers _ _ _ _ Hreq) as Hh.
  rewrite (build_headers_get _ _ _ _ Hh Hauth).
  apply String.eqb_neq in Hct, Hacc. rewrite Hct, Hacc. reflexivity.
Qed.

(** ** Credentials *)

Lemma pipeline_options_with_token op options t :
  pipeline_options op (with_token options t)
  = with_token (pipeline_options op options) t.
Proof. destruct op; reflexivity. Qed.

(** X10: the credential shows in the [Authorization] header and nowhere
    else.  Take a call that issues its request, and the same call with
    another default credential and another [token] option.  Either the
    host refuses the value of the new [Authorization] header, and then the
    second call makes no request and rejects with the host's [TypeError];
    or the second call issues its request too, and the two requests have
    the same URL, method, body and passthrough options, and the same value
    for every header other than [Authorization]. *)
Theorem credential_only_in_authorization op this options credential t request :
  requests (call op this options) = [request] ->
  (exists msg,
     valid_value
       (normalize_value
          ("Bearer "
           +:+ default "" (effectiveToken (setToken this credential) t)))
     = false /\
     call op (setToken this credential) (with_token options t)
     = ([], Rejected (HostError "TypeError" msg))) \/
  (exists request',
     requests (call op (setToken this credential) (with_token options t))
     = [request'] /\
     req_url request' = req_url request /\
     req_method request' = req_method request /\
     req_body request' = req_body request /\
     req_rest request' = req_rest request /\
     forall name, lower name <> "authorization" ->
       Headers_get (req_headers request') name
       = Headers_get (req_headers request) name).
Proof.
  intros Hreq.
  pose proof (call_request_headers _ _ _ _ Hreq) as Hh.
  apply call_requests_inv in Hreq as (url & headers & Hurl & _ & ->).
  destruct (build_headers (setToken this credential) (with_token options t))
    as [e | headers'] eqn:Hh'.
  - left. destruct (build_headers_inl _ _ _ Hh') as [msg ->]. exists msg.
    split; [|apply (call_unbuilt op (setToken this credential)
                      (with_token options t) url _ Hurl Hh')].
    destruct (valid_value _) eqn:Hvalid; [|reflexivity].
    destruct (proj2 (build_headers_succeeds (setToken this credential)
                       (with_token options t))) as [h Hsome].
    + split; [|intros _; exact Hvalid].
      exact (proj1 (proj1 (build_headers_succeeds this options)
                      (ex_intro _ _ Hh))).
    + rewrite Hsome in Hh'. discriminate Hh'.
  - right.
    exists (build_request (method_of op)
              (pipeline_options op (with_token options t)) url headers').
    split; [apply (call_requests op (setToken this credential)
                     (with_token options t) _ _ Hurl Hh')|].
    rewrite pipeline_options_with_token. repeat split.
    intros name Hname. cbn [req_headers build_request] in *.
    rewrite (build_headers_get _ _ _ _ Hh' Hname),
      (build_headers_get _ _ _ _ Hh Hname).
    reflexivity.
Qed.

(** X11: a [token] given with the call, a string or [null], is the one
    used: the call does what it would do with any other default
    credential, so [setToken] has no effect on it. *)
Theorem explicit_token_overrides_default op this options credential :
  token options <> None ->
  call op (setToken this credential) options = call op this options.
Proof.
  intros Htok. destruct (token options) as [t|] eqn:Ht; [|contradiction].
  assert (Hheaders :
    build_headers (setToken this credential) (pipeline_options op options)
    = build_headers this (pipeline_options op options)).
  { unfold build_headers.
    replace (token (pipeline_options op options)) with (Some t)
      by (destruct op; symmetry; exact Ht).
    reflexivity. }
  rewrite !call_pipeline. unfold fetchWithAuth.
  change (construct_url (setToken this credential)
            (endpoint (pipeline_options op options)))
    with (construct_url this (endpoint (pipeline_options op options))).
  rewrite Hheaders. reflexivity.
Qed.

(** X12: an empty string as the effective credential, given with the call
    or as the default, counts as no credential: the call does exactly what
    it does with [token: null], and so adds no [Authorization] header. *)
Theorem empty_credential_is_no_credential op this options :
  effectiveToken this (token options) = Some "" ->
  call op this options = call op this (with_token options (Some None)).
Proof.
  intros Heff.
  assert (Hheaders :
    build_headers this (pipeline_options op options)
    = build_headers this
        (pipeline_options op (with_token options (Some None)))).
  { rewrite !build_headers_pipeline_options. unfold build_headers.
    rewrite Heff. reflexivity. }
  rewrite !call_pipeline. unfold fetchWithAuth.
  rewrite !endpoint_pipeline_options, <- Hheaders. cbn [endpoint with_token].
  destruct (construct_url this (endpoint options)); [destruct op; reflexivity|].
  destruct (build_headers this (pipeline_options op options));
    destruct op; reflexivity.
Qed.

(** ** The URL *)

Lemma pipeline_options_with_endpoint op options e :
  pipeline_options op (with_endpoint options e)
  = with_endpoint (pipeline_options op options) e.
Proof. destruct op; reflexivity. Qed.

Lemma resolve_url_leading_slash this (e : string) :
  (forall r, e <> String "/" r) ->
  resolve_url this (String "/" e) = resolve_url this e.
Proof.
  intros Hno. unfold resolve_url.
  replace (strip_leading_slash e) with e; [reflexivity|].
  destruct e as [| c r]; [reflexivity|]. cbn.
  destruct c as [[] [] [] [] [] [] [] []]; try reflexivity.
  exfalso. apply (Hno r). reflexivity.
Qed.

(** X13: one leading slash of the endpoint is of no consequence.  The
    endpoints ["/" ++ e] and [e], where [e] has no leading slash, lead to
    the same requests, and when the URL resolves the two calls are the same
    in everything. *)
Theorem leading_slash_is_optional op this options (e : string) :
  (forall r, e <> String "/" r) ->
  requests (call op this (with_endpoint options (String "/" e)))
  = requests (call op this (with_endpoint options e)) /\
  (forall url, resolve_url this e = inr url ->
     call op this (with_endpoint options (String "/" e))
     = call op this (with_endpoint options e)).
Proof.
  intros Hno. pose proof (resolve_url_leading_slash this e Hno) as Hres.
  destruct (resolve_url this e) as [msg | url] eqn:He.
  - split; [|intros url [=]].
    rewrite (call_unresolved op this (with_endpoint options (String "/" e))
               (JsError ("Failed to construct URL (base: "
                         +:+ BaseURL_toString (baseURL this)
                         +:+ ", endpoint: " +:+ String "/" e +:+ "): " +:+ msg)))
      by (unfold construct_url; cbn [endpoint with_endpoint];
          rewrite Hres; reflexivity).
    rewrite (call_unresolved op this (with_endpoint options e)
               (JsError ("Failed to construct URL (base: "
                         +:+ BaseURL_toString (baseURL this)
                         +:+ ", endpoint: " +:+ e +:+ "): " +:+ msg)))
      by (unfold construct_url; cbn [endpoint with_endpoint];
          rewrite He; reflexivity).
    reflexivity.
  - assert (Hcall : call op this (with_endpoint options (String "/" e))
                    = call op this (with_endpoint options e)).
    { rewrite !call_pipeline, !pipeline_options_with_endpoint.
      unfold fetchWithAuth, construct_url. cbn [endpoint with_endpoint].
      rewrite Hres, He. destruct op; reflexivity. }
    split; [rewrite Hcall; reflexivity | intros _ _; exact Hcall].
Qed.

Lemma append_params_frame (params : option Params) (url : URL) :
  url_path (append_params url params) = url_path url /\
  url_hash (append_params url params) = url_hash url.
Proof.
  destruct params as [entries|]; [|split; reflexivity]. cbn.
  revert url. induction entries as [| [key value] entries IH]; intros url;
    [split; reflexivity|].
  cbn [fold_left]. destruct (IH (append_param url (key, value))) as [-> ->].
  unfold append_param. destruct (is_present value); split; reflexivity.
Qed.

Lemma query_entries_all_absent (entries : Params) :
  (forall key value, (key, value) ∈ entries -> is_present value = false) ->
  query_entries entries = [].
Proof.
  intros Habsent. unfold query_entries.
  induction entries as [| [key value] entries IH]; [reflexivity|]. cbn.
  rewrite (Habsent key value) by left.
  apply IH. intros k v Hin. apply (Habsent k v). right; exact Hin.
Qed.

Lemma URL_eq (u v : URL) :
  url_path u = url_path v -> searchParams u = searchParams v ->
  url_hash u = url_hash v -> u = v.
Proof. destruct u, v; cbn; intros -> -> ->; reflexivity. Qed.

(** X14: parameters touch the query and nothing else: the path and the
    fragment of the request URL are those of the resolved URL; and when
    there is no parameter map, or an empty one, or one whose values are all
    [undefined] or [null], the request goes to the resolved URL as it
    is.  The request is issued whenever the URL resolves and the host
    accepts the headers; headers the host refuses make the pipeline reject
    with the host's error, without a request. *)
Theorem parameters_only_extend_query this method options url :
  construct_url this (endpoint options) = inr url ->
  (forall e, build_headers this options = inl e ->
     fetchWithAuth this method options = ([], Rejected e)) /\
  (forall headers, build_headers this options = inr headers ->
   exists request,
    requests (fetchWithAuth this method options) = [request] /\
    url_path (req_url request) = url_path url /\
    url_hash (req_url request) = url_hash url /\
    ((params options = None \/
      exists entries, params options = Some entries /\
        forall key value, (key, value) ∈ entries -> is_present value = false) ->
     req_url request = url)).
Proof.
  intros Hurl.
  split; [intros e Hh; apply (fetchWithAuth_unbuilt _ _ _ _ _ Hurl Hh)|].
  intros headers Hh. eexists.
  split; [apply (fetchWithAuth_requests _ _ _ _ _ Hurl Hh)|].
  cbn [req_url build_request].
  destruct (append_params_frame (params options) url) as [Hpath Hhash].
  split; [exact Hpath|]. split; [exact Hhash|].
  intros [Hnone | (entries & Hsome & Habsent)].
  - rewrite Hnone. reflexivity.
  - apply URL_eq; [exact Hpath | | exact Hhash].
    rewrite Hsome. cbn. rewrite append_params_fold.
    rewrite (query_entries_all_absent _ Habsent). apply app_nil_r.
Qed.

(** ** The error envelope *)

(** X15: a body matches the error envelope exactly when it is an object
    whose [message] and [code] are strings and whose [details] and [hint]
    are strings or [null]; the envelope read from it has these four
    values.  Other keys and the order of the keys play no part; a body
    that is not an object, or lacks one of the four keys, does not
    match. *)
Theorem envelope_match_iff (body : JSON) (e : PostgrestErrorResponse) :
  safeParse_postgrestErrorSchema body = Some e <->
  exists props, body = JObj props /\
    JSON_prop props "message" = Some (JStr (message e)) /\
    JSON_prop props "details" =
      Some (match details e with Some d => JStr d | None => JNull end) /\
    JSON_prop props "hint" =
      Some (match hint e with Some h => JStr h | None => JNull end) /\
    JSON_prop props "code" = Some (JStr (code e)).
Proof.
  split; [apply safeParse_postgrestErrorSchema_Some|].
  intros (props & -> & Hm & Hd & Hh & Hc). cbn.
  rewrite Hm, Hd, Hh, Hc. destruct e as [m [d|] [h|] c]; reflexivity.
Qed.

(** X16: round trip of the envelope: the body an envelope is sent as is
    read back as that envelope, and a response that carries it with a
    status outside 200-299 makes the call reject with the
    [PostgrestClientError] of that status and envelope. *)
Theorem envelope_round_trip op this options request response
    (e : PostgrestErrorResponse) :
  safeParse_postgrestErrorSchema (envelope_to_JSON e) = Some e /\
  (requests (call op this options) = [request] ->
   fetch request = Resolved response ->
   ok response = false ->
   json response = inr (envelope_to_JSON e) ->
   call op this options =
   ([EvFetch request; EvJson],
    Rejected (ClientError (new_PostgrestClientError (status response) e)))).
Proof.
  assert (Hparse : safeParse_postgrestErrorSchema (envelope_to_JSON e) = Some e)
    by (destruct e as [m [d|] [h|] c]; reflexivity).
  split; [exact Hparse|]. intros Hreq Hfetch Hok Hjson.
  apply (call_rejected_response _ _ _ _ _ _ _ Hreq Hfetch).
  rewrite (handle_response_error _ _ Hok), reject_response_cases, Hjson, Hparse.
  reflexivity.
Qed.

(** ** [getFirst] and the schema *)

Lemma pipeline_without_schema_trace this method options ev :
  schema options = None ->
  ev ∈ trace (fetchWithAuth this method options) ->
  forall value, ev <> EvValidate value.
Proof.
  intros Hs Hin value ->. unfold fetchWithAuth in Hin.
  destruct (construct_url this (endpoint options)) as [e | url];
    [inversion Hin|].
  destruct (build_headers this options) as [e | headers]; [inversion Hin|].
  unfold mbind, Task_mbind in Hin. rewrite trace_bind in Hin.
  unfold await_fetch in Hin.
  destruct (fetch _) as [response | e]; cbn in Hin.
  - apply elem_of_cons in Hin as [[=] | Hin]. rewrite Hs in Hin.
    unfold handle_response in Hin.
    destruct (negb (ok response)).
    + rewrite reject_response_cases in Hin.
      destruct (json response) as [msg | body];
        [|destruct (safeParse_postgrestErrorSchema body)]; cbn in Hin;
        repeat (apply elem_of_cons in Hin as [[=] | Hin]); inversion Hin.
    + destruct (_ || _); [inversion Hin|].
      unfold mbind, Task_mbind in Hin. rewrite trace_bind in Hin.
      unfold response_json in Hin.
      destruct (json response); cbn in Hin;
        repeat (apply elem_of_cons in Hin as [[=] | Hin]); inversion Hin.
  - apply elem_of_cons in Hin as [[=] | Hin]. inversion Hin.
Qed.

(** X17: [getFirst] never validates the array it receives.  The only value
    it hands to the caller's schema is the first element of the array the
    pipeline resolved to, and it does so once at most. *)
Theorem getFirst_validates_first_only this options value :
  EvValidate value ∈ trace (getFirst this options) ->
  (exists others s,
     outcome (fetchWithAuth this "GET" (getFirst_options options))
     = Resolved (JArr (value :: others)) /\
     schema options = Some s) /\
  length (List.filter (fun ev => match ev with EvValidate _ => true | _ => false end)
            (trace (getFirst this options))) = 1%nat.
Proof.
  unfold getFirst, mbind, Task_mbind. rewrite trace_bind. intros Hin.
  assert (Hnone : forall l : list Event,
            (forall ev, ev ∈ l -> forall v, ev <> EvValidate v) ->
            List.filter (fun ev => match ev with EvValidate _ => true | _ => false end) l
            = []).
  { induction l as [| ev l IH]; [reflexivity|]. intros Hl. cbn.
    destruct ev as [r | | label | v];
      try (apply IH; intros ev' Hev; apply Hl; right; exact Hev).
    exfalso. exact (Hl (EvValidate v) ltac:(left) v eq_refl). }
  pose proof (fun ev => pipeline_without_schema_trace this "GET"
                (getFirst_options options) ev eq_refl) as Hpipe.
  rewrite List.filter_app, (Hnone _ Hpipe). cbn [app].
  apply elem_of_app in Hin as [Hin | Hin];
    [exfalso; exact (Hpipe _ Hin value eq_refl)|].
  destruct (outcome (fetchWithAuth this "GET" (getFirst_options options)))
    as [data | e]; [|inversion Hin].
  unfold unwrap_first in *.
  destruct data as [| | | | [| first others] |]; try (inversion Hin; fail).
  destruct (schema options) as [s|]; [|inversion Hin].
  pose proof (validateData_trace _ _ _ Hin) as [= ->].
  split; [exists others, s; split; reflexivity|].
  rewrite validateData_cases in *. destruct s as [| validate];
    [inversion Hin|].
  destruct (validate first); reflexivity.
Qed.

(** ** The earlier revision *)

Lemma Legacy_fetchWithAuth_cases (this : Legacy.PostgrestClient) method options :
  Legacy.fetchWithAuth this method options =
  match URL_new (strip_leading_slash
                   (Legacy.url_string (endpoint options) (params options)))
          (Some (Legacy.baseURL this)) with
  | inl msg => ([], Rejected (HostError "TypeError" msg))
  | inr url =>
      match build_headers (Legacy.later_client (Legacy.baseURL this)
                             (Legacy.defaultToken this)) options with
      | inl e => ([], Rejected e)
      | inr headers =>
          Task_bind (await_fetch (Legacy.request_of method options url headers))
                    (handle_response (schema options))
      end
  end.
Proof.
  unfold Legacy.fetchWithAuth. destruct (URL_new _ _); [reflexivity|].
  destruct (build_headers _ _); reflexivity.
Qed.

Lemma Legacy_fetchWithAuth_requests (this : Legacy.PostgrestClient)
    method options url headers :
  URL_new (strip_leading_slash
             (Legacy.url_string (endpoint options) (params options)))
    (Some (Legacy.baseURL this)) = inr url ->
  build_headers (Legacy.later_client (Legacy.baseURL this)
                   (Legacy.defaultToken this)) options = inr headers ->
  requests (Legacy.fetchWithAuth this method options)
  = [Legacy.request_of method options url headers].
Proof.
  intros Hurl Hh. rewrite Legacy_fetchWithAuth_cases, Hurl, Hh, requests_bind.
  unfold await_fetch. destruct (fetch _); cbn;
    [rewrite requests_handle_response|]; reflexivity.
Qed.

(** X18: the two revisions agree where their URLs agree.  On a host that
    parses the [href] of the base back to the base, and parses the endpoint
    with the serialised query joined to it to the URL the later revision
    gets by appending the parameters, [fetchWithAuth] of the earlier
    revision makes the same request and settles in the same way as the
    later one on the same base and credential. *)
Theorem legacy_agrees_with_later (this : Legacy.PostgrestClient)
    method options url :
  URL_new (URL_href (Legacy.baseURL this)) None = inr (Legacy.baseURL this) ->
  URL_new (strip_leading_slash (endpoint options)) (Some (Legacy.baseURL this))
    = inr url ->
  URL_new (strip_leading_slash
             (Legacy.url_string (endpoint options) (params options)))
    (Some (Legacy.baseURL this))
    = inr (append_params url (params options)) ->
  Legacy.fetchWithAuth this method options
  = fetchWithAuth (Legacy.later_client (Legacy.baseURL this)
                     (Legacy.defaultToken this)) method options.
Proof.
  intros Hbase Hurl Hjoined.
  rewrite Legacy_fetchWithAuth_cases, Hjoined.
  unfold fetchWithAuth, construct_url, resolve_url, Legacy.later_client.
  cbn [baseURL constructor BaseURL_truthy negb BaseURL_toString].
  rewrite Hbase, Hurl. destruct (build_headers _ _); reflexivity.
Qed.

(** X19: the earlier revision handles the response as the later one does.
    Once its request is answered, status 204 or 202 gives [null] without
    reading the body, and a status outside 200-299 rejects with the
    [PostgrestClientError] of the envelope, or with the [Error] for a body
    that is not JSON. *)
Theorem legacy_pipeline_settles (this : Legacy.PostgrestClient)
    method options url headers response :
  URL_new (strip_leading_slash
             (Legacy.url_string (endpoint options) (params options)))
    (Some (Legacy.baseURL this)) = inr url ->
  build_headers (Legacy.later_client (Legacy.baseURL this)
                   (Legacy.defaultToken this)) options = inr headers ->
  fetch (Legacy.request_of method options url headers) = Resolved response ->
  (status response = 204 \/ status response = 202 ->
   Legacy.fetchWithAuth this method options =
   ([EvFetch (Legacy.request_of method options url headers)], Resolved JNull)) /\
  (forall body e,
     ok response = false -> json response = inr body ->
     safeParse_postgrestErrorSchema body = Some e ->
     Legacy.fetchWithAuth this method options =
     ([EvFetch (Legacy.request_of method options url headers); EvJson],
      Rejected (ClientError (new_PostgrestClientError (status response) e)))) /\
  (forall msg,
     ok response = false -> json response = inl msg ->
     Legacy.fetchWithAuth this method options =
     ([EvFetch (Legacy.request_of method options url headers); EvJson],
      Rejected (JsError ("HTTP Error " +:+ pretty (status response)
                         +:+ ": Failed to parse JSON error response")))).
Proof.
  intros Hurl Hh Hfetch. rewrite Legacy_fetchWithAuth_cases, Hurl, Hh.
  unfold await_fetch. rewrite Hfetch. unfold Task_bind. split; [|split].
  - intros Hs. rewrite (handle_response_no_content _ _ Hs). reflexivity.
  - intros body e Hok Hjson Hparse.
    rewrite (handle_response_error _ _ Hok), reject_response_cases, Hjson, Hparse.
    reflexivity.
  - intros msg Hok Hjson.
    rewrite (handle_response_error _ _ Hok), reject_response_cases, Hjson.
    reflexivity.
Qed.

(** A URL the earlier revision cannot build leaves [fetchWithAuth] as the
    host's [TypeError]. *)
Lemma Legacy_fetchWithAuth_unresolved (this : Legacy.PostgrestClient)
    method options msg :
  URL_new (strip_leading_slash
             (Legacy.url_string (endpoint options) (params options)))
    (Some (Legacy.baseURL this)) = inl msg ->
  Legacy.fetchWithAuth this method options
  = ([], Rejected (HostError "TypeError" msg)).
Proof. intros Hurl. rewrite Legacy_fetchWithAuth_cases, Hurl. reflexivity. Qed.

Lemma occurrences_pairs_of (entries : Params) (key : string) (v : ParamValue) :
  NoDup (map fst entries) -> (key, v) ∈ entries ->
  occurrences key (Legacy.pairs_of entries) = 1%nat.
Proof.
  induction entries as [| [k w] entries IH]; [intros _ Hin; inversion Hin|].
  cbn [map fst]. intros Hnd Hin. apply NoDup_cons in Hnd as [Hnot Hnd].
  unfold occurrences, Legacy.pairs_of in *. cbn.
  apply elem_of_cons in Hin as [Heq | Hin].
  - inversion Heq; subst k w. rewrite String.eqb_refl. cbn. f_equal.
    apply (occurrences_absent key). intros Hkey. apply Hnot.
    apply elem_keys in Hkey as [value Hvalue].
    apply list_elem_of_In, in_map_iff in Hvalue as [[k' v'] [[= -> _] Hin']].
    apply elem_keys. exists v'. apply list_elem_of_In, Hin'.
  - destruct (String.eqb_spec k key) as [-> | _]; [|apply IH; assumption].
    exfalso. apply Hnot, elem_keys. exists v; exact Hin.
Qed.

(** X20: [getFirst] of the earlier revision always sends a query, joined to
    the endpoint with "?" or, when the endpoint has one already, with "&".
    Its pairs are the caller's parameters, none filtered, with [limit]
    set to ["1"]: [limit=1] is among them once, and once the host has
    parsed the joined string and accepted the headers the one request of
    the call is a [GET] to that URL; headers the host refuses make the call
    reject with the host's error, without a request. *)
Theorem legacy_getFirst_sends_limit (this : Legacy.PostgrestClient)
    options url :
  NoDup (map fst (default [] (params options))) ->
  URL_new
    (strip_leading_slash
       (endpoint options
        +:+ (if Legacy.includes_question (endpoint options) then "&" else "?")
        +:+ URLSearchParams_toString
              (Legacy.pairs_of
                 (Params_set (default [] (params options)) "limit" (PStr "1")))))
    (Some (Legacy.baseURL this)) = inr url ->
  (forall e,
     build_headers (Legacy.later_client (Legacy.baseURL this)
                      (Legacy.defaultToken this)) options = inl e ->
     Legacy.getFirst this options = ([], Rejected e)) /\
  (forall headers,
     build_headers (Legacy.later_client (Legacy.baseURL this)
                      (Legacy.defaultToken this)) options = inr headers ->
     requests (Legacy.getFirst this options)
     = [Legacy.request_of "GET" (getFirst_options options) url headers]) /\
  ("limit", "1")
    ∈ Legacy.pairs_of (Params_set (default [] (params options)) "limit" (PStr "1")) /\
  occurrences "limit"
    (Legacy.pairs_of (Params_set (default [] (params options)) "limit" (PStr "1")))
  = 1%nat /\
  (forall key value,
     (key, value) ∈ default [] (params options) -> key <> "limit" ->
     (key, String_of value)
       ∈ Legacy.pairs_of
           (Params_set (default [] (params options)) "limit" (PStr "1"))).
Proof.
  intros Hnd Hurl.
  assert (Hstring :
    Legacy.url_string (endpoint (getFirst_options options))
      (params (getFirst_options options))
    = endpoint options
      +:+ (if Legacy.includes_question (endpoint options) then "&" else "?")
      +:+ URLSearchParams_toString
            (Legacy.pairs_of
               (Params_set (default [] (params options)) "limit" (PStr "1")))).
  { cbn [endpoint params getFirst_options]. unfold Legacy.url_string.
    destruct (Params_set (default [] (params options)) "limit" (PStr "1"))
      as [| entry entries] eqn:Hset; [|reflexivity].
    pose proof (Params_set_elem (default [] (params options)) "limit" (PStr "1"))
      as Hin. rewrite Hset in Hin. inversion Hin. }
  rewrite <- Hstring in Hurl.
  assert (Hpair : forall entries key (value : ParamValue),
            (key, value) ∈ entries ->
            (key, String_of value) ∈ Legacy.pairs_of entries).
  { intros entries key value Hin. apply list_elem_of_In, in_map_iff.
    exists (key, value). split; [reflexivity | apply list_elem_of_In, Hin]. }
  split; [|split; [|split; [|split]]].
  - intros e Hh. unfold Legacy.getFirst, mbind, Task_mbind.
    rewrite Legacy_fetchWithAuth_cases, Hurl.
    change (build_headers
              (Legacy.later_client (Legacy.baseURL this)
                 (Legacy.defaultToken this)) (getFirst_options options))
      with (build_headers
              (Legacy.later_client (Legacy.baseURL this)
                 (Legacy.defaultToken this)) options).
    rewrite Hh. reflexivity.
  - intros headers Hh.
    unfold Legacy.getFirst, mbind, Task_mbind. rewrite requests_bind.
    rewrite (Legacy_fetchWithAuth_requests this "GET"
               (getFirst_options options) url headers Hurl Hh).
    destruct (outcome _) as [data | e]; [|reflexivity].
    pose proof (requests_finish OpGetFirst options data) as Hfinish.
    cbn [finish] in Hfinish. rewrite Hfinish. reflexivity.
  - apply (Hpair _ "limit" (PStr "1")), Params_set_elem.
  - apply (occurrences_pairs_of _ _ (PStr "1")).
    + apply Params_set_NoDup, Hnd.
    + apply Params_set_elem.
  - intros key value Hin Hne. apply Hpair, Params_set_other; assumption.
Qed.

End Further.

(** * The claims at concrete inputs *)

Import Reference.

(** Distinctness of the keys of a concrete parameter map, by evaluation. *)
Ltac distinct_keys := apply (bool_decide_unpack _); vm_compute; exact I.

(** The earlier revision parses the base in the constructor: on the
    reference host an empty base makes the constructor throw. *)
Lemma Legacy_constructor_throws_on_empty_base :
  @Legacy.constructor host (answering empty_rows) (BaseString "") None
  = Rejected (HostError "TypeError" "Invalid URL").
Proof. reflexivity. Qed.

(** C1 at an input: [createPostgrestClient(undefined)] gives a client, and
    [get] on [/users] is where the failure shows. *)
Lemma C1_example :
  @call host (answering empty_rows) OpGet (createPostgrestClient None None)
    (options_of "/users")
  = ([], Rejected (JsError
       "Failed to construct URL (base: , endpoint: /users): Base URL is not defined")).
Proof.
  exact (proj1 (proj2 (proj2 (proj2 (proj2
    (@C1_construction_defers_base_failure host (answering empty_rows)
       None OpGet (options_of "/users"))))))).
Defined.

(** C2 as stated fails when the endpoint has a query of its own:
    [get({ endpoint: "/users?select=id&offset=0",
           params: { select: "*", offset: undefined } })]
    asks for [select=id&offset=0&select=*]; [offset], whose value is
    [undefined], is in the query and [select] is in it twice. *)
Lemma C2_counterexample :
  exists request,
    requests (@get host (answering empty_rows) api
                (with_params (options_of "/users?select=id&offset=0")
                   [("select", PStr "*"); ("offset", PUndefined)]))
    = [request] /\
    searchParams (req_url request)
    = [("select", "id"); ("offset", "0"); ("select", "*")] /\
    "offset" ∈ map fst (searchParams (req_url request)) /\
    occurrences "select" (searchParams (req_url request)) = 2%nat /\
    ~ @query_as_claimed host [("select", PStr "*"); ("offset", PUndefined)]
        (searchParams (req_url request)).
Proof.
  eexists. split; [reflexivity|]. split; [reflexivity|].
  split; [right; left|]. split; [reflexivity|].
  intros [_ Honce].
  destruct (Honce "select" (PStr "*")) as [Hocc _]; [left | reflexivity|].
  discriminate Hocc.
Qed.

(** C2 at an input whose URL has no query of its own. *)
Lemma C2_witness :
  exists request,
    requests (@fetchWithAuth host (answering empty_rows) api "GET"
                (with_params (options_of "/users")
                   [("select", PStr "*"); ("id", PUndefined);
                    ("active", PBool true); ("offset", PNull);
                    ("limit", @PNum host 10%Z)]))
    = [request] /\
    searchParams (req_url request)
    = [("select", "*"); ("active", "true"); ("limit", "10")].
Proof.
  destruct (@C2_query_composition host (answering empty_rows) api "GET"
              (with_params (options_of "/users")
                 [("select", PStr "*"); ("id", PUndefined);
                  ("active", PBool true); ("offset", PNull);
                  ("limit", @PNum host 10%Z)])
              [("select", PStr "*"); ("id", PUndefined);
               ("active", PBool true); ("offset", PNull);
               ("limit", @PNum host 10%Z)]
              users_url
              [("authorization", "Bearer secret");
               ("content-type", "application/json");
               ("accept", "application/json")])
    as (request & Hreq & Hquery & _).
  - reflexivity.
  - distinct_keys.
  - reflexivity.
  - reflexivity.
  - exists request. split; [exact Hreq|]. rewrite Hquery. reflexivity.
Defined.

(** C3 as stated fails when the caller passes an [Authorization] header:
    with [token: null] and [headers: { Authorization: "Basic abc" }] the
    request carries [Authorization: Basic abc]. *)
Lemma C3_counterexample :
  exists request,
    requests (@get host (answering empty_rows) api
                (with_headers (with_token (options_of "/users") (Some None))
                   [("Authorization", "Basic abc")]))
    = [request] /\
    defaultToken api = Some "secret" /\
    Headers_has (req_headers request) "Authorization" = true /\
    Headers_get (req_headers request) "Authorization" = Some "Basic abc".
Proof. eexists. repeat split. Qed.

(** C3 at inputs: [token: null] against a default credential; the default
    credential when [token] is left out; a credential with a space at its
    end, which the host removes; a credential with a line feed in it, which
    the host refuses. *)
Lemma C3_witness :
  (exists request,
     requests (@fetchWithAuth host (answering empty_rows) api "GET"
                 (with_token (options_of "/users") (Some None))) = [request] /\
     Headers_get (req_headers request) "Authorization" = None) /\
  (exists request,
     requests (@fetchWithAuth host (answering empty_rows) api "GET"
                 (options_of "/users")) = [request] /\
     Headers_get (req_headers request) "Authorization" = Some "Bearer secret") /\
  (exists request,
     requests (@fetchWithAuth host (answering empty_rows) api "GET"
                 (with_token (options_of "/users") (Some (Some "secret "))))
     = [request] /\
     Headers_get (req_headers request) "Authorization" = Some "Bearer secret") /\
  (exists msg,
     @fetchWithAuth host (answering empty_rows) api "GET"
       (with_token (options_of "/users") (Some (Some line_break_token)))
     = ([], Rejected (HostError "TypeError" msg))).
Proof.
  split; [|split; [|split]].
  - destruct (proj2 (proj2 (@C3_authorization_header host (answering empty_rows)
                              api "GET"
                              (with_token (options_of "/users") (Some None))))
                users_url [] eq_refl eq_refl) as [request Hreq];
      [discriminate|].
    exists request. split; [exact Hreq|].
    rewrite (proj1 (proj1 (@C3_authorization_header host (answering empty_rows)
                             api "GET"
                             (with_token (options_of "/users") (Some None)))
                      request Hreq) eq_refl).
    reflexivity.
  - destruct (proj2 (proj2 (@C3_authorization_header host (answering empty_rows)
                              api "GET" (options_of "/users")))
                users_url [] eq_refl eq_refl) as [request Hreq];
      [reflexivity|].
    exists request. split; [exact Hreq|].
    rewrite (proj2 (proj2 (proj2 (proj1
               (@C3_authorization_header host (answering empty_rows)
                  api "GET" (options_of "/users")) request Hreq))
               "secret" eq_refl ltac:(discriminate)) eq_refl).
    reflexivity.
  - destruct (proj2 (proj2 (@C3_authorization_header host (answering empty_rows)
                              api "GET"
                              (with_token (options_of "/users")
                                 (Some (Some "secret ")))))
                users_url [] eq_refl eq_refl) as [request Hreq];
      [reflexivity|].
    exists request. split; [exact Hreq|].
    rewrite (proj1 (proj2 (proj2 (proj1
               (@C3_authorization_header host (answering empty_rows)
                  api "GET"
                  (with_token (options_of "/users") (Some (Some "secret "))))
               request Hreq))
               "secret " eq_refl ltac:(discriminate))).
    reflexivity.
  - apply (proj1 (proj2 (@C3_authorization_header host (answering empty_rows)
                           api "GET"
                           (with_token (options_of "/users")
                              (Some (Some line_break_token)))))
             line_break_token users_url eq_refl);
      [discriminate | reflexivity | reflexivity].
Defined.

(** C4 at an input: a 404 whose body is an error envelope. *)
Lemma C4_witness :
  outcome (@call host
             (answering {| status := 404; json := inr not_found_envelope |})
             OpGet api (options_of "/users"))
  = Rejected (ClientError
      {| error_type := "POSTGREST_ERROR";
         error_name := "PostgrestClientError";
         error_message := "Could not find the table";
         error_status := 404;
         error_details := None;
         error_hint := Some "Perhaps you meant the table users";
         error_code := "PGRST205" |}).
Proof.
  destruct (@C4_client_error_mirrors_response host
              (answering {| status := 404; json := inr not_found_envelope |})
              OpGet api (options_of "/users")
              (@build_request host
                 (answering {| status := 404; json := inr not_found_envelope |})
                 "GET" (options_of "/users") users_url
                 (headers_for api (options_of "/users")))
              {| status := 404; json := inr not_found_envelope |}
              not_found_envelope
              {| message := "Could not find the table"; details := None;
                 hint := Some "Perhaps you meant the table users";
                 code := "PGRST205" |})
    as [(e & props & Hout & -> & _) _];
    [reflexivity | reflexivity | reflexivity | reflexivity | reflexivity |].
  exact Hout.
Defined.

(** C5 at the input of the specification: caller parameters
    [{ select: "*" }] give the query [select=*&limit=1]; a [limit] of the
    caller is overwritten in place. *)
Lemma C5_witness :
  (exists request,
     requests (@getFirst host (answering empty_rows) api
                 (with_params (options_of "/users") [("select", PStr "*")]))
     = [request] /\
     searchParams (req_url request) = [("select", "*"); ("limit", "1")]) /\
  (exists request,
     requests (@getFirst host (answering empty_rows) api
                 (with_params (options_of "/users")
                    [("limit", PStr "5"); ("select", PStr "*")]))
     = [request] /\
     searchParams (req_url request) = [("limit", "1"); ("select", "*")]).
Proof.
  split.
  - destruct (proj2 (@C5_getFirst_merges_limit host (answering empty_rows) api
                       (with_params (options_of "/users") [("select", PStr "*")])
                       users_url ltac:(distinct_keys) eq_refl)
                (headers_for api (options_of "/users")) eq_refl)
      as (request & Hreq & _ & Hquery & _).
    exists request. split; [exact Hreq|]. rewrite Hquery. reflexivity.
  - destruct (proj2 (@C5_getFirst_merges_limit host (answering empty_rows) api
                       (with_params (options_of "/users")
                          [("limit", PStr "5"); ("select", PStr "*")])
                       users_url ltac:(distinct_keys) eq_refl)
                (headers_for api (options_of "/users")) eq_refl)
      as (request & Hreq & _ & Hquery & _).
    exists request. split; [exact Hreq|]. rewrite Hquery. reflexivity.
Defined.

(** C6 at the inputs of the specification: the body [[{"id":1}]] resolves
    to [{"id":1}], with and without a schema; the body [[]] rejects; and a
    first element the schema refuses makes [getFirst] reject. *)
Lemma C6_witness :
  outcome (@getFirst host (answering {| status := 200; json := inr one_row |})
             api (options_of "/users"))
  = Resolved (JObj [("id", @JNum host 1%Z)]) /\
  outcome (@getFirst host (answering {| status := 200; json := inr one_row |})
             api (with_schema (options_of "/users") object_schema))
  = Resolved (JObj [("id", @JNum host 1%Z)]) /\
  outcome (@getFirst host (answering empty_rows) api (options_of "/users"))
  = Rejected (JsError "No data found") /\
  outcome (@getFirst host
             (answering {| status := 200; json := inr (JArr [JStr "x"]) |})
             api (with_schema (options_of "/users") object_schema))
  = Rejected (JsError
      ("Schema Validation Error: ["
       +:+ quote +:+ "Invalid type: Expected Object" +:+ quote +:+ "]")).
Proof.
  split; [|split; [|split]].
  - apply (proj1 (@C6_getFirst_unwraps host
                    (answering {| status := 200; json := inr one_row |})
                    api (options_of "/users") one_row eq_refl)
             (JObj [("id", @JNum host 1%Z)]) [] eq_refl).
    reflexivity.
  - eapply (proj1 (@C6_getFirst_unwraps host
                     (answering {| status := 200; json := inr one_row |})
                     api (with_schema (options_of "/users") object_schema)
                     one_row eq_refl)
              (JObj [("id", @JNum host 1%Z)]) [] eq_refl); reflexivity.
  - apply (proj2 (@C6_getFirst_unwraps host (answering empty_rows)
                    api (options_of "/users") (JArr []) eq_refl)).
    left; reflexivity.
  - rewrite (proj1 (proj2 (proj2 (proj2
               (proj1 (@C6_getFirst_unwraps host
                         (answering {| status := 200;
                                       json := inr (JArr [JStr "x"]) |})
                         api (with_schema (options_of "/users") object_schema)
                         (JArr [JStr "x"]) eq_refl)
                  (JStr "x") [] eq_refl))))
               _ [JStr "Invalid type: Expected Object"] eq_refl eq_refl).
    reflexivity.
Defined.

(** C7 at an input: a 204 whose body is not JSON. *)
Lemma C7_witness :
  @fetchWithAuth host (answering no_content) api "DELETE"
    (with_schema (options_of "/users") object_schema)
  = ([EvFetch (@build_request host (answering no_content) "DELETE"
                 (with_schema (options_of "/users") object_schema) users_url
                 (headers_for api (options_of "/users")))],
     Resolved JNull).
Proof.
  apply (@C7_no_content_resolves_null host (answering no_content) api "DELETE"
           (with_schema (options_of "/users") object_schema)
           (@build_request host (answering no_content) "DELETE"
              (with_schema (options_of "/users") object_schema) users_url
              (headers_for api (options_of "/users")))
           no_content).
  - reflexivity.
  - reflexivity.
  - left; reflexivity.
Defined.

(** C8 at inputs: a 502 whose body is not JSON, and a 500 whose body is
    JSON of another shape. *)
Lemma C8_witness :
  outcome (@call host
             (answering {| status := 502; json := inl "Unexpected token <" |})
             OpPost api (options_of "/users"))
  = Rejected (JsError "HTTP Error 502: Failed to parse JSON error response") /\
  outcome (@call host
             (answering {| status := 500; json := inr (JObj [("error", JStr "x")]) |})
             OpPost api (options_of "/users"))
  = Rejected (JsError
      "Internal Client Error: Invalid error format from server (500)").
Proof.
  split.
  - rewrite (proj1 (@C8_unreadable_error_body host
               (answering {| status := 502; json := inl "Unexpected token <" |})
               OpPost api (options_of "/users")
               (@build_request host
                  (answering {| status := 502; json := inl "Unexpected token <" |})
                  "POST" (options_of "/users") users_url
                  (headers_for api (options_of "/users")))
               {| status := 502; json := inl "Unexpected token <" |}
               eq_refl eq_refl eq_refl) "Unexpected token <" eq_refl).
    reflexivity.
  - rewrite (proj1 (proj2 (@C8_unreadable_error_body host
               (answering {| status := 500; json := inr (JObj [("error", JStr "x")]) |})
               OpPost api (options_of "/users")
               (@build_request host
                  (answering {| status := 500; json := inr (JObj [("error", JStr "x")]) |})
                  "POST" (options_of "/users") users_url
                  (headers_for api (options_of "/users")))
               {| status := 500; json := inr (JObj [("error", JStr "x")]) |}
               eq_refl eq_refl eq_refl) (JObj [("error", JStr "x")])
               eq_refl eq_refl)).
    reflexivity.
Defined.

(** C9 as stated fails like C3: after [setToken(null)], a call that passes
    [headers: { Authorization: "Basic abc" }] and no [token] sends
    [Authorization: Basic abc]. *)
Lemma C9_counterexample :
  exists request,
    requests (@post host (answering empty_rows) (setToken api None)
                (with_headers (options_of "/users")
                   [("Authorization", "Basic abc")]))
    = [request] /\
    defaultToken (setToken api None) = None /\
    Headers_has (req_headers request) "Authorization" = true /\
    Headers_get (req_headers request) "Authorization" = Some "Basic abc".
Proof. eexists. repeat split. Qed.

(** C9 at inputs: a new credential; [null]; and a new credential with a
    line feed in it, which the host refuses. *)
Lemma C9_witness :
  (exists request,
     requests (@call host (answering empty_rows) OpGetFirst
                 (setToken api (Some "fresh")) (options_of "/users"))
     = [request] /\
     Headers_get (req_headers request) "Authorization" = Some "Bearer fresh") /\
  (exists request,
     requests (@call host (answering empty_rows) OpPatch
                 (setToken api None) (options_of "/users"))
     = [request] /\
     Headers_get (req_headers request) "Authorization" = None) /\
  (exists msg,
     @call host (answering empty_rows) OpGet
       (setToken api (Some line_break_token)) (options_of "/users")
     = ([], Rejected (HostError "TypeError" msg))).
Proof.
  split; [|split].
  - destruct (proj2 (proj2 (proj2 (proj2
                (@C9_setToken_replaces_credential host (answering empty_rows)
                   api (Some "fresh")))))
                OpGetFirst (options_of "/users") users_url [] eq_refl eq_refl
                eq_refl) as [request Hreq]; [reflexivity|].
    exists request. split; [exact Hreq|].
    destruct (proj1 (proj2 (proj2
                (@C9_setToken_replaces_credential host (answering empty_rows)
                   api (Some "fresh"))))
                OpGetFirst (options_of "/users") request eq_refl Hreq)
      as (_ & Hbearer & _).
    rewrite (proj2 (Hbearer "fresh" eq_refl ltac:(discriminate)) eq_refl).
    reflexivity.
  - destruct (proj2 (proj2 (proj2 (proj2
                (@C9_setToken_replaces_credential host (answering empty_rows)
                   api None))))
                OpPatch (options_of "/users") users_url [] eq_refl eq_refl
                eq_refl) as [request Hreq]; [discriminate|].
    exists request. split; [exact Hreq|].
    destruct (proj1 (proj2 (proj2
                (@C9_setToken_replaces_credential host (answering empty_rows)
                   api None)))
                OpPatch (options_of "/users") request eq_refl Hreq)
      as (_ & _ & Hnull).
    rewrite (Hnull eq_refl). reflexivity.
  - apply (proj1 (proj2 (proj2 (proj2
             (@C9_setToken_replaces_credential host (answering empty_rows)
                api (Some line_break_token)))))
             OpGet (options_of "/users") line_break_token users_url
             eq_refl eq_refl);
      [discriminate | reflexivity | reflexivity].
Defined.

(** C10 at an input: [getFirst] against a 204. *)
Lemma C10_witness :
  outcome (@getFirst host (answering no_content) api (options_of "/users"))
  = Rejected (JsError "No data found").
Proof.
  rewrite (proj1 (@C10_getFirst_no_content_rejects host (answering no_content)
                    api (options_of "/users")
                    (@build_request host (answering no_content) "GET"
                       (getFirst_options (options_of "/users")) users_url
                       (headers_for api (options_of "/users")))
                    no_content eq_refl eq_refl (or_introl eq_refl))).
  reflexivity.
Defined.

(** * The further properties at concrete inputs *)

(** X2 at an input: a 200 with one row, without and with a schema for the
    whole body. *)
Lemma success_body_is_result_witness :
  @call host (answering {| status := 200; json := inr one_row |})
    OpGet api (options_of "/users")
  = ([EvFetch (@build_request host
                 (answering {| status := 200; json := inr one_row |})
                 "GET" (options_of "/users") users_url
                 (headers_for api (options_of "/users")));
      EvJson],
     Resolved one_row).
Proof.
  destruct (@success_body_is_result host
              (answering {| status := 200; json := inr one_row |})
              OpGet api (options_of "/users")
              (@build_request host
                 (answering {| status := 200; json := inr one_row |})
                 "GET" (options_of "/users") users_url
                 (headers_for api (options_of "/users")))
              {| status := 200; json := inr one_row |} one_row)
    as [Hplain _];
    [discriminate | reflexivity | reflexivity | reflexivity
     | discriminate | discriminate | reflexivity |].
  apply Hplain. reflexivity.
Defined.

(** X3 at an input: a 200 whose body is not JSON. *)
Lemma success_parse_failure_propagates_witness :
  outcome (@call host
             (answering {| status := 200; json := inl "Unexpected token <" |})
             OpGetFirst api (options_of "/users"))
  = Rejected (HostError "SyntaxError" "Unexpected token <").
Proof.
  rewrite (@success_parse_failure_propagates host
             (answering {| status := 200; json := inl "Unexpected token <" |})
             OpGetFirst api (options_of "/users")
             (@build_request host
                (answering {| status := 200; json := inl "Unexpected token <" |})
                "GET" (getFirst_options (options_of "/users")) users_url
                (headers_for api (options_of "/users")))
             {| status := 200; json := inl "Unexpected token <" |}
             "Unexpected token <"
             eq_refl eq_refl eq_refl
             ltac:(discriminate) ltac:(discriminate) eq_refl).
  reflexivity.
Defined.

(** X4 at an input: the transport fails. *)
Lemma transport_failure_propagates_witness :
  @call host (platform (fun _ => Rejected (HostError "TypeError" "fetch failed")))
    OpPatch api (options_of "/users")
  = ([EvFetch (@build_request host
                 (platform (fun _ => Rejected (HostError "TypeError" "fetch failed")))
                 "PATCH" (options_of "/users") users_url
                 (headers_for api (options_of "/users")))],
     Rejected (HostError "TypeError" "fetch failed")).
Proof.
  apply (@transport_failure_propagates host
           (platform (fun _ => Rejected (HostError "TypeError" "fetch failed")))
           OpPatch api (options_of "/users")); reflexivity.
Defined.

(** X5 at an input: a 500 with a schema in the options. *)
Lemma error_status_never_resolves_witness :
  exists e,
    outcome (@call host (answering server_error) OpGet api
               (with_schema (options_of "/users") object_schema))
    = Rejected e.
Proof.
  destruct (@error_status_never_resolves host (answering server_error)
              OpGet api (with_schema (options_of "/users") object_schema)
              (@build_request host (answering server_error) "GET"
                 (with_schema (options_of "/users") object_schema) users_url
                 (headers_for api (options_of "/users")))
              server_error)
    as [(e & t & Hrun & _) _]; [reflexivity | reflexivity | reflexivity |].
  exists e. rewrite Hrun. reflexivity.
Defined.

(** X6 at an input: a 500 whose JSON body is not an envelope is logged. *)
Lemma console_error_iff_witness :
  exists label,
    EvConsoleError label
      ∈ trace (@call host (answering server_error) OpDelete api
                 (options_of "/users")).
Proof.
  apply (proj2 (@console_error_iff host (answering server_error)
                  OpDelete api (options_of "/users")
                  (@build_request host (answering server_error) "DELETE"
                     (options_of "/users") users_url
                     (headers_for api (options_of "/users")))
                  server_error eq_refl eq_refl)).
  split; [reflexivity|]. eexists. split; reflexivity.
Defined.


(** X8 at an input: the caller's own content headers are replaced. *)
Lemma content_headers_forced_witness :
  exists request,
    requests (@call host (answering empty_rows) OpPost api
                (with_headers (options_of "/users")
                   [("content-type", "text/plain"); ("ACCEPT", "text/html")]))
    = [request] /\
    Headers_get (req_headers request) "Content-Type" = Some "application/json" /\
    Headers_get (req_headers request) "Accept" = Some "application/json".
Proof.
  eexists. split; [reflexivity|].
  exact (@content_headers_forced host (answering empty_rows)
           OpPost api
           (with_headers (options_of "/users")
              [("content-type", "text/plain"); ("ACCEPT", "text/html")])
           _ eq_refl).
Defined.

(** X9 at an input: the [Prefer] header of the caller, given with spaces
    around its value. *)
Lemma passthrough_headers_kept_witness :
  exists request,
    requests (@call host (answering empty_rows) OpPost api
                (with_headers (options_of "/users")
                   [("Prefer", " return=representation ")]))
    = [request] /\
    Headers_get (req_headers request) "Prefer" = Some "return=representation".
Proof.
  eexists. split; [reflexivity|].
  rewrite (@passthrough_headers_kept host (answering empty_rows) OpPost api
             (with_headers (options_of "/users")
                [("Prefer", " return=representation ")])
             _ "Prefer" eq_refl);
    [reflexivity | | |]; intros Heq; vm_compute in Heq; discriminate Heq.
Defined.

(** X10 at inputs: another credential, the same URL; a credential with a
    line feed in it, no request. *)
Lemma credential_only_in_authorization_witness :
  (exists request',
     requests (@call host (answering empty_rows) OpGet
                 (setToken api (Some "other"))
                 (with_token (options_of "/users") None))
     = [request'] /\
     req_url request' = users_url /\
     Headers_get (req_headers request') "Authorization" = Some "Bearer other") /\
  (exists msg,
     @call host (answering empty_rows) OpGet
       (setToken api (Some line_break_token))
       (with_token (options_of "/users") None)
     = ([], Rejected (HostError "TypeError" msg))).
Proof.
  split.
  - destruct (@credential_only_in_authorization host (answering empty_rows)
                OpGet api (options_of "/users") (Some "other") None
                _ eq_refl)
      as [(msg & Hvalid & _) | (request' & Hreq & Hurl & _)].
    + discriminate Hvalid.
    + exists request'. split; [exact Hreq|]. split; [rewrite Hurl; reflexivity|].
      injection Hreq as <-. reflexivity.
  - destruct (@credential_only_in_authorization host (answering empty_rows)
                OpGet api (options_of "/users") (Some line_break_token) None
                _ eq_refl)
      as [(msg & _ & Hcall) | (request' & Hreq & _)].
    + exists msg. exact Hcall.
    + discriminate Hreq.
Defined.

(** X11 at an input: a token given with the call, after [setToken]. *)
Lemma explicit_token_overrides_default_witness :
  @call host (answering empty_rows) OpGet (setToken api (Some "other"))
    (with_token (options_of "/users") (Some (Some "mine")))
  = @call host (answering empty_rows) OpGet api
      (with_token (options_of "/users") (Some (Some "mine"))).
Proof.
  apply (@explicit_token_overrides_default host (answering empty_rows)).
  discriminate.
Defined.

(** X12 at an input: [token: ""] against a default credential. *)
Lemma empty_credential_is_no_credential_witness :
  @call host (answering empty_rows) OpGet api
    (with_token (options_of "/users") (Some (Some "")))
  = @call host (answering empty_rows) OpGet api
      (with_token (with_token (options_of "/users") (Some (Some "")))
         (Some None)).
Proof.
  apply (@empty_credential_is_no_credential host (answering empty_rows)).
  reflexivity.
Defined.

(** X13 at the endpoints ["/users"] and ["users"]. *)
Lemma leading_slash_is_optional_witness :
  requests (@call host (answering empty_rows) OpGet api
              (with_endpoint (options_of "") "/users"))
  = requests (@call host (answering empty_rows) OpGet api
                (with_endpoint (options_of "") "users")).
Proof.
  apply (@leading_slash_is_optional host (answering empty_rows) OpGet api
           (options_of "") "users").
  intros r. discriminate.
Defined.

(** X14 at an input: a map whose values are [null] and [undefined]. *)
Lemma parameters_only_extend_query_witness :
  exists request,
    requests (@fetchWithAuth host (answering empty_rows) api "GET"
                (with_params (options_of "/users")
                   [("id", PNull); ("offset", PUndefined)]))
    = [request] /\
    req_url request = users_url.
Proof.
  destruct (proj2 (@parameters_only_extend_query host (answering empty_rows)
                     api "GET"
                     (with_params (options_of "/users")
                        [("id", PNull); ("offset", PUndefined)])
                     users_url eq_refl)
              (headers_for api (options_of "/users")) eq_refl)
    as (request & Hreq & _ & _ & Hsame).
  exists request. split; [exact Hreq|]. apply Hsame. right.
  eexists. split; [reflexivity|]. intros key value Hin.
  repeat (apply elem_of_cons in Hin as [[= -> ->] | Hin]; [reflexivity|]).
  inversion Hin.
Defined.

(** X17 at an input: one row and a schema for a row. *)
Lemma getFirst_validates_first_only_witness :
  length (List.filter
            (fun ev => match ev with EvValidate _ => true | _ => false end)
            (trace (@getFirst host
                      (answering {| status := 200; json := inr one_row |})
                      api (with_schema (options_of "/users") object_schema))))
  = 1%nat.
Proof.
  apply (proj2 (@getFirst_validates_first_only host
                  (answering {| status := 200; json := inr one_row |})
                  api (with_schema (options_of "/users") object_schema)
                  (JObj [("id", @JNum host 1%Z)])
                  ltac:(vm_compute; right; right; left))).
Defined.

(** X18 at an input: [select=*] on [/users]. *)
Lemma legacy_agrees_with_later_witness :
  @Legacy.fetchWithAuth host (answering empty_rows) legacy_api "GET"
    (with_params (options_of "/users") [("select", PStr "*")])
  = @fetchWithAuth host (answering empty_rows)
      (constructor (BaseObject api_base) (Some "secret")) "GET"
      (with_params (options_of "/users") [("select", PStr "*")]).
Proof.
  apply (@legacy_agrees_with_later host (answering empty_rows) legacy_api "GET"
           (with_params (options_of "/users") [("select", PStr "*")])
           users_url); reflexivity.
Defined.

(** X19 at an input: the earlier revision against a 204. *)
Lemma legacy_pipeline_settles_witness :
  outcome (@Legacy.fetchWithAuth host (answering no_content) legacy_api
             "DELETE" (options_of "/users"))
  = Resolved JNull.
Proof.
  rewrite (proj1 (@legacy_pipeline_settles host (answering no_content)
                    legacy_api "DELETE" (options_of "/users") users_url
                    (headers_for api (options_of "/users"))
                    no_content eq_refl eq_refl eq_refl) (or_introl eq_refl)).
  reflexivity.
Defined.

(** X20 at an input: the earlier [getFirst] with [select=*]. *)
Lemma legacy_getFirst_sends_limit_witness :
  map (fun request => searchParams (req_url request))
    (requests (@Legacy.getFirst host (answering empty_rows) legacy_api
                 (with_params (options_of "/users") [("select", PStr "*")])))
  = [[("select", "*"); ("limit", "1")]].
Proof.
  rewrite (proj1 (proj2 (@legacy_getFirst_sends_limit host
                           (answering empty_rows) legacy_api
                           (with_params (options_of "/users")
                              [("select", PStr "*")])
                           {| url_path := "https://api.example.com/users";
                              searchParams := [("select", "*"); ("limit", "1")];
                              url_hash := "" |}
                           ltac:(distinct_keys) eq_refl))
             (headers_for api (options_of "/users")) eq_refl).
  reflexivity.
Defined.
